(** * iloader: the certificate page and the cleanup page

    A shallow embedding of [src/pages/Certificates.tsx] and
    [src/pages/Cleanup.tsx].  Both files are React components whose logic
    is a handful of asynchronous callbacks over component state; each
    callback has exactly one suspension point, the [await invoke(...)] of a
    backend command.

    - JavaScript strings are modelled as their UTF-8 byte sequence
      ([String.string]).  All search strings handed to [includes] in the
      source are ASCII, so searching bytes and searching UTF-16 code units
      agree on them.
    - The synchronous stretches of a callback run in a small state and
      exception monad [M]; [try]/[catch]/[finally] is a combinator of it.
    - An asynchronous function is the record [AsyncFn]: what runs before
      the [await], the command that is awaited, and what runs once the
      command has settled.
    - The interleaving of callers and backend replies is a step function
      over a [World] that holds the component state next to the requests
      that are in flight.
    - The Tauri backend (the commands [get_certificates_cached],
      [revoke_certificate], [cleanup_all]) is not part of the sources at
      hand; module [Backend] models it from the specification. *)

From Stdlib Require Import String Ascii List Bool Arith ZArith Lia.
From Stdlib Require Import DecimalString.
Import ListNotations.
Local Open Scope string_scope.
Local Open Scope list_scope.

(* ===================================================================== *)
(** ** JavaScript values and string operations used by the pages *)
(* ===================================================================== *)

Module Js.

(** What a rejected [invoke] or a [throw] can carry here: a plain string
    (Tauri rejects with the command's error string) or an [Error] object
    built by [new Error(message)]. *)
Inductive value : Type :=
| VString (s : string)
| VError (message : string).

(** [String(v)]: a string is itself; [Error.prototype.toString] gives the
    name alone when the message is empty, else [name + ": " + message]. *)
Definition String_ (v : value) : string :=
  match v with
  | VString s => s
  | VError EmptyString => "Error"
  | VError m => "Error: " ++ m
  end.

(** The escape [\n]. *)
Definition nl : string := String (ascii_of_nat 10) EmptyString.

(** [s.startsWith(p)] *)
Fixpoint startsWith (s p : string) : bool :=
  match p, s with
  | EmptyString, _ => true
  | String _ _, EmptyString => false
  | String a p', String b s' => Ascii.eqb a b && startsWith s' p'
  end.

(** [s.includes(search)] *)
Fixpoint includes (s search : string) : bool :=
  startsWith s search ||
  match s with
  | EmptyString => false
  | String _ s' => includes s' search
  end.

(** [x || d] on a field that may be absent ([undefined]/[null], here
    [None]) or the empty string: both are falsy. *)
Definition or_else (x : option string) (d : string) : string :=
  match x with
  | None => d
  | Some EmptyString => d
  | Some s => s
  end.

(** [s !== ""] *)
Definition nonEmpty (s : string) : bool :=
  match s with
  | EmptyString => false
  | String _ _ => true
  end.

(** How a promise settles. *)
Inductive settled (A : Type) : Type :=
| Fulfilled (a : A)
| Rejected (e : value).
Arguments Fulfilled {A} a.
Arguments Rejected {A} e.

End Js.

(* ===================================================================== *)
(** ** The state and exception monad of a callback's synchronous code *)
(* ===================================================================== *)

Module Sync.

(** Completion of a block: normal, or abrupt by [throw]. *)
Inductive completion (A : Type) : Type :=
| Normal (a : A)
| Thrown (e : Js.value).
Arguments Normal {A} a.
Arguments Thrown {A} e.

Section WithState.
Variable S : Type.

Definition M (A : Type) : Type := S -> completion A * S.

Definition ret {A} (a : A) : M A := fun s => (Normal a, s).

Definition throw {A} (e : Js.value) : M A := fun s => (Thrown e, s).

Definition bind {A B} (m : M A) (k : A -> M B) : M B :=
  fun s =>
    match m s with
    | (Normal a, s') => k a s'
    | (Thrown e, s') => (Thrown e, s')
    end.

Definition modify (f : S -> S) : M unit := fun s => (Normal tt, f s).

(** [await p] once [p] has settled: its value, or its rejection thrown
    at the [await]. *)
Definition await {A} (p : Js.settled A) : M A :=
  match p with
  | Js.Fulfilled a => ret a
  | Js.Rejected e => throw e
  end.

(** [try { body } catch (e) { handler e } finally { fin }] *)
Definition try_catch_finally {A}
    (body : M A) (handler : Js.value -> M A) (fin : M unit) : M A :=
  fun s =>
    let '(c, s1) :=
      match body s with
      | (Normal a, s') => (Normal a, s')
      | (Thrown e, s') => handler e s'
      end in
    match fin s1 with
    | (Normal _, s2) => (c, s2)
    | (Thrown e, s2) => (Thrown e, s2)
    end.

(** An [async] function whose body has a single [await invoke(cmd)]:
    the code before the [await], the awaited command, and the code
    that runs when the command has settled (the [await] itself is the
    first thing [after_await] does, so that a rejection is thrown at
    the place of the [await]). *)
Record AsyncFn (C R A : Type) : Type := {
  before_await : M unit;
  awaited : C;
  after_await : Js.settled R -> M A
}.

End WithState.

Arguments ret {S A} a.
Arguments throw {S A} e.
Arguments bind {S A B} m k.
Arguments modify {S} f.
Arguments await {S A} p.
Arguments try_catch_finally {S A} body handler fin.
Arguments before_await {S C R A} a.
Arguments awaited {S C R A} a.
Arguments after_await {S C R A} a.

End Sync.

Notation "x <- m ;; k" := (Sync.bind m (fun x => k))
  (at level 61, m at next level, right associativity).
Notation "m ;; k" := (Sync.bind m (fun _ => k))
  (at level 61, right associativity).

(* ===================================================================== *)
(** ** src/pages/Certificates.tsx *)
(* ===================================================================== *)

Module Certificates.
Import Js Sync.

(** [type Certificate] *)
Record Certificate : Type := {
  name : string;
  certificateId : string;
  serialNumber : string;
  machineName : string;
  machineId : string
}.

(** An element of the array that [invoke] resolves with.  The type
    annotation says [Certificate], but the code guards every field with
    [||], so a field may be absent at run time. *)
Record RawCertificate : Type := {
  raw_name : option string;
  raw_certificateId : option string;
  raw_serialNumber : option string;
  raw_machineName : option string;
  raw_machineId : option string
}.

(** Component state: [useState] for [certificates] and [loading],
    [useRef] for [loadingRef]. *)
Record State : Type := {
  certificates : list Certificate;
  loading : bool;
  loadingRef : bool
}.

Definition setCertificates (certs : list Certificate) : M State unit :=
  modify (fun s =>
    {| certificates := certs; loading := loading s; loadingRef := loadingRef s |}).

Definition setLoading (b : bool) : M State unit :=
  modify (fun s =>
    {| certificates := certificates s; loading := b; loadingRef := loadingRef s |}).

Definition set_loadingRef (b : bool) : M State unit :=
  modify (fun s =>
    {| certificates := certificates s; loading := loading s; loadingRef := b |}).

(** The arrow function handed to [certs.map]. *)
Definition validate (cert : RawCertificate) : Certificate :=
  {| name := or_else (raw_name cert) "Unknown";
     certificateId := or_else (raw_certificateId cert) EmptyString;
     serialNumber := or_else (raw_serialNumber cert) EmptyString;
     machineName := or_else (raw_machineName cert) EmptyString;
     machineId := or_else (raw_machineId cert) EmptyString |}.

(** The arrow function handed to [filter]. *)
Definition identified (cert : Certificate) : bool :=
  nonEmpty (certificateId cert) && nonEmpty (serialNumber cert).

(** The test of the [if] in the [catch] block. *)
Definition mentions_machineId (errorMsg : string) : bool :=
  includes errorMsg "machineId" || includes errorMsg "Parse"
  || includes errorMsg "machineld".

Definition step1 : string := "1. Выйдите и войдите снова в приложении".
Definition step2 : string :=
  "2. Отзовите все существующие сертификаты и создайте новые".
Definition step3 : string := "3. Проверьте наличие обновлений iloader".
Definition step4 : string := "4. Сообщите об этой проблеме разработчикам".

(** [detailedError] *)
Definition detailedError (errorMsg : string) : string :=
  "Ошибка парсинга данных от Apple API (machineId)." ++ nl ++ nl ++
  "Это известная проблема, которая может возникать из-за изменений в формате API Apple." ++ nl ++ nl ++
  "Возможные решения:" ++ nl ++
  step1 ++ nl ++
  step2 ++ nl ++
  step3 ++ nl ++
  step4 ++ nl ++ nl ++
  "Техническая информация: " ++ errorMsg.

Inductive command : Type :=
| get_certificates_cached
| revoke_certificate (serialNumber : string).

(** The inner [const promise = async () => { ... }] of
    [loadCertificates].  ([console.error] has no effect on the state and
    is left out.) *)
Definition promise : AsyncFn State command (list RawCertificate) unit :=
  {| before_await :=
       set_loadingRef true ;;
       setLoading true;
     awaited := get_certificates_cached;
     after_await := fun reply =>
       try_catch_finally
         (certs <- await reply ;;
          let certs := filter identified (map validate certs) in
          setCertificates certs)
         (fun error =>
            let errorMsg := String_ error in
            if mentions_machineId errorMsg
            then throw (VError (detailedError errorMsg))
            else throw error)
         (setLoading false ;;
          set_loadingRef false) |}.

(** The [error] callback of the [toast.promise] in [loadCertificates]. *)
Definition load_error_text (e : value) : string :=
  let errorStr := String_ e in
  if includes errorStr nl then errorStr
  else ("Не удалось загрузить сертификаты: " ++ errorStr)%string.

(** *** The page as a transition system

    JavaScript runs one callback at a time; a callback gives up control
    only at its [await].  A [World] is the component state together with
    the [invoke] requests that have been issued and not yet settled. *)

Record Request : Type := { req_id : nat; req_cmd : command }.

Inductive toast : Type :=
| ToastLoading (text : string)
| ToastSuccess (text : string)
| ToastError (text : string).

(** What one call of [loadCertificates] did: it returned at the guard,
    or it handed [promise] to [toast.promise], which started it and
    issued the request [id]. *)
Inductive call_status : Type :=
| ReturnedAtGuard
| Started (id : nat).

(** [ui] is the component state and [pending] the requests in flight.
    The other fields only record what has happened, oldest first: every
    request issued, the toasts shown, what each call of
    [loadCertificates] did, and how the promise behind each request
    settled. *)
Record World : Type := {
  ui : State;
  pending : list Request;
  issued : list command;
  next_id : nat;
  toasts : list toast;
  load_calls : list call_status;
  outcomes : list (nat * completion unit)
}.

Definition initial : World :=
  {| ui := {| certificates := []; loading := false; loadingRef := false |};
     pending := []; issued := []; next_id := 0; toasts := [];
     load_calls := []; outcomes := [] |}.

(** [loadCertificates]: the guard, then [toast.promise(promise, ...)],
    which calls [promise] (it runs up to its [await]) and shows the
    loading toast. *)
Definition loadCertificates (w : World) : World :=
  if loadingRef (ui w) then
    {| ui := ui w; pending := pending w; issued := issued w;
       next_id := next_id w; toasts := toasts w;
       load_calls := load_calls w ++ [ReturnedAtGuard];
       outcomes := outcomes w |}
  else
    let id := next_id w in
    {| ui := snd (before_await promise (ui w));
       pending := pending w ++ [{| req_id := id; req_cmd := awaited promise |}];
       issued := issued w ++ [awaited promise];
       next_id := S id;
       toasts := toasts w ++ [ToastLoading "Загрузка сертификатов..."];
       load_calls := load_calls w ++ [Started id];
       outcomes := outcomes w |}.

(** [revokeCertificate(serialNumber)] up to the point where it returns:
    the request is issued, the [then] callback and the toast are
    attached. *)
Definition revokeCertificate (serialNumber : string) (w : World) : World :=
  let id := next_id w in
  {| ui := ui w;
     pending := pending w ++
       [{| req_id := id; req_cmd := revoke_certificate serialNumber |}];
     issued := issued w ++ [revoke_certificate serialNumber];
     next_id := S id;
     toasts := toasts w ++ [ToastLoading "Revoking certificate..."];
     load_calls := load_calls w;
     outcomes := outcomes w |}.

(** Removes the request [id] from the requests in flight. *)
Fixpoint take_request (id : nat) (l : list Request)
  : option (command * list Request) :=
  match l with
  | [] => None
  | r :: l' =>
      if Nat.eqb (req_id r) id then Some (req_cmd r, l')
      else match take_request id l' with
           | Some (c, rest) => Some (c, r :: rest)
           | None => None
           end
  end.

(** The backend settles the [get_certificates_cached] request [id]:
    [promise] resumes after its [await], then [toast.promise] shows the
    success or the error toast. *)
Definition settle_get (id : nat) (reply : settled (list RawCertificate))
    (w : World) : World :=
  match take_request id (pending w) with
  | Some (get_certificates_cached, rest) =>
      let '(c, ui') := after_await promise reply (ui w) in
      {| ui := ui'; pending := rest; issued := issued w;
         next_id := next_id w;
         toasts := toasts w ++
           [match c with
            | Normal _ => ToastSuccess "Сертификаты успешно загружены!"
            | Thrown e => ToastError (load_error_text e)
            end];
         load_calls := load_calls w;
         outcomes := outcomes w ++ [(id, c)] |}
  | _ => w
  end.

(** The backend settles the [revoke_certificate] request [id]: on
    fulfilment [promise.then(loadCertificates)] fires, then the success
    toast; on rejection only the error toast. *)
Definition settle_revoke (id : nat) (reply : settled unit) (w : World)
  : World :=
  match take_request id (pending w) with
  | Some (revoke_certificate _, rest) =>
      let w0 :=
        {| ui := ui w; pending := rest; issued := issued w;
           next_id := next_id w; toasts := toasts w;
           load_calls := load_calls w; outcomes := outcomes w |} in
      match reply with
      | Fulfilled _ =>
          let w1 := loadCertificates w0 in
          {| ui := ui w1; pending := pending w1; issued := issued w1;
             next_id := next_id w1;
             toasts := toasts w1 ++
               [ToastSuccess "Certificate revoked successfully!"];
             load_calls := load_calls w1;
             outcomes := outcomes w1 ++ [(id, Normal tt)] |}
      | Rejected e =>
          {| ui := ui w0; pending := pending w0; issued := issued w0;
             next_id := next_id w0;
             toasts := toasts w0 ++
               [ToastError ("Failed to revoke certificate: " ++ String_ e)];
             load_calls := load_calls w0;
             outcomes := outcomes w0 ++ [(id, Thrown e)] |}
      end
  | _ => w
  end.

Inductive event : Type :=
| Call_loadCertificates
| Call_revokeCertificate (serialNumber : string)
| Settle_get (id : nat) (reply : settled (list RawCertificate))
| Settle_revoke (id : nat) (reply : settled unit).

Definition step (w : World) (e : event) : World :=
  match e with
  | Call_loadCertificates => loadCertificates w
  | Call_revokeCertificate s => revokeCertificate s w
  | Settle_get id reply => settle_get id reply w
  | Settle_revoke id reply => settle_revoke id reply w
  end.

Definition run (evs : list event) (w : World) : World :=
  fold_left step evs w.

(** Number of [get_certificates_cached] requests in flight. *)
Definition is_get (r : Request) : bool :=
  match req_cmd r with
  | get_certificates_cached => true
  | revoke_certificate _ => false
  end.

Definition fetches_in_flight (w : World) : nat :=
  length (filter is_get (pending w)).

Definition fetches_issued (w : World) : nat :=
  length (filter (fun c => match c with
                           | get_certificates_cached => true
                           | revoke_certificate _ => false
                           end) (issued w)).

(** How the promise that issued request [id] has settled, if it has. *)
Fixpoint outcome_of (id : nat) (l : list (nat * completion unit))
  : option (completion unit) :=
  match l with
  | [] => None
  | (i, c) :: l' => if Nat.eqb i id then Some c else outcome_of id l'
  end.

(** What the [k]-th call of [loadCertificates] (counting from 0) has got
    back so far through the promise it handed to [toast.promise]:
    nothing if it returned at the guard or the request is still in
    flight. *)
Definition received (w : World) (k : nat) : option (completion unit) :=
  match nth_error (load_calls w) k with
  | Some (Started id) => outcome_of id (outcomes w)
  | _ => None
  end.

End Certificates.

(* ===================================================================== *)
(** ** src/pages/Cleanup.tsx *)
(* ===================================================================== *)

Module Cleanup.
Import Js Sync.

(** [type CleanupResult]; the two counts are JavaScript numbers that hold
    natural numbers. *)
Record CleanupResult : Type := {
  certificatesRevoked : nat;
  appIdsDeleted : nat;
  errors : list string
}.

(** Component state: [useState] for [loading] and [result]. *)
Record State : Type := {
  loading : bool;
  result : option CleanupResult
}.

Definition setLoading (b : bool) : M State unit :=
  modify (fun s => {| loading := b; result := result s |}).

Definition setResult (r : option CleanupResult) : M State unit :=
  modify (fun s => {| loading := loading s; result := r |}).

Inductive command : Type :=
| cleanup_all.

(** The inner [const promise = async () => { ... }] of [performCleanup].
    There is no [try] around the [await]: a rejection leaves the function
    at once. *)
Definition promise : AsyncFn State command CleanupResult CleanupResult :=
  {| before_await :=
       setLoading true ;;
       setResult None;
     awaited := cleanup_all;
     after_await := fun reply =>
       cleanupResult <- await reply ;;
       setResult (Some cleanupResult) ;;
       setLoading false ;;
       ret cleanupResult |}.

(** A number inside a template literal. *)
Definition show (n : nat) : string := NilEmpty.string_of_uint (Nat.to_uint n).

(** The [success] callback of [toast.promise]. *)
Definition success_text (result : CleanupResult) : string :=
  let successMsg :=
    ("Очистка завершена!" ++ nl ++
     "Отозвано сертификатов: " ++ show (certificatesRevoked result) ++ nl ++
     "Удалено App ID: " ++ show (appIdsDeleted result))%string in
  if (0 <? length (errors result))%nat
  then (successMsg ++ nl ++ "Ошибок: " ++ show (length (errors result)))%string
  else successMsg.

(** The [error] callback of [toast.promise]. *)
Definition error_text (e : value) : string :=
  "Очистка не удалась: " ++ String_ e.

Inductive toast : Type :=
| ToastLoading (text : string)
| ToastSuccess (text : string)
| ToastError (text : string).

(** The page as a transition system: component state, the identifiers of
    the [cleanup_all] requests in flight, how many were issued, and what
    each started [promise] settled with. *)
Record World : Type := {
  ui : State;
  pending : list nat;
  issued : nat;
  next_id : nat;
  toasts : list toast;
  outcomes : list (nat * completion CleanupResult)
}.

Definition initial : World :=
  {| ui := {| loading := false; result := None |};
     pending := []; issued := 0; next_id := 0; toasts := []; outcomes := [] |}.

(** [performCleanup].  [confirmed] is what [window.confirm] returns; the
    dialog is only shown when [loading] is false.  The callback is rebuilt
    whenever [loading] changes (dependency list [[loading]]), so the
    [loading] it reads is the component's current one. *)
Definition performCleanup (confirmed : bool) (w : World) : World :=
  if loading (ui w) then w
  else if negb confirmed then w
  else
    let id := next_id w in
    {| ui := snd (before_await promise (ui w));
       pending := pending w ++ [id];
       issued := S (issued w);
       next_id := S id;
       toasts := toasts w ++ [ToastLoading "Очистка всех данных..."];
       outcomes := outcomes w |}.

Fixpoint take_request (id : nat) (l : list nat) : option (list nat) :=
  match l with
  | [] => None
  | r :: l' =>
      if Nat.eqb r id then Some l'
      else match take_request id l' with
           | Some rest => Some (r :: rest)
           | None => None
           end
  end.

(** The backend settles the [cleanup_all] request [id]. *)
Definition settle (id : nat) (reply : settled CleanupResult) (w : World)
  : World :=
  match take_request id (pending w) with
  | Some rest =>
      let '(c, ui') := after_await promise reply (ui w) in
      {| ui := ui'; pending := rest; issued := issued w;
         next_id := next_id w;
         toasts := toasts w ++
           [match c with
            | Normal r => ToastSuccess (success_text r)
            | Thrown e => ToastError (error_text e)
            end];
         outcomes := outcomes w ++ [(id, c)] |}
  | None => w
  end.

Inductive event : Type :=
| Click (confirmed : bool)
| Settle (id : nat) (reply : settled CleanupResult).

Definition step (w : World) (e : event) : World :=
  match e with
  | Click confirmed => performCleanup confirmed w
  | Settle id reply => settle id reply w
  end.

Definition run (evs : list event) (w : World) : World :=
  fold_left step evs w.

End Cleanup.

(* ===================================================================== *)
(** ** The backend commands, from the specification *)
(* ===================================================================== *)

Module Backend.
Import Js.

(** Modelled from the spec: the [CacheEntry] of the certificate cache
    behind [get_certificates_cached]; the backend is not among the
    sources.  "Wraps a sequence of Certificate plus a fetch timestamp."
    Time is counted in seconds. *)
Record CacheEntry : Type := {
  entry_certificates : list Certificates.RawCertificate;
  timestamp : Z
}.

(** Modelled from the spec: the freshness window of the cache, "TTL
    (5 minutes)", a constant of the missing backend. *)
Definition TTL : Z := 5 * 60.

(** Modelled from the spec: the freshness test of the missing cache, "an
    entry is fresh iff now - timestamp < TTL". *)
Definition fresh (now : Z) (e : CacheEntry) : bool :=
  (now - timestamp e <? TTL)%Z.

(** Modelled from the spec: [CertificateCache.get] of the missing backend.
    "If forceRefresh is false and a fresh CacheEntry exists, return its
    list immediately (no network access).  Otherwise ... one [fetch] is
    started: on success the cache is replaced and the timestamp reset; on
    failure the cache is left unchanged and the error propagates."
    [listCertificates] is what the remote call answers if it is made; the
    third component tells whether it was made.  The backend is taken to
    handle one request at a time, so the case of a caller that joins a
    fetch already in flight does not arise here. *)
Definition get (forceRefresh : bool) (now : Z)
    (listCertificates : settled (list Certificates.RawCertificate))
    (cache : option CacheEntry)
  : settled (list Certificates.RawCertificate) * option CacheEntry * bool :=
  let hit :=
    if forceRefresh then None
    else match cache with
         | Some e => if fresh now e then Some e else None
         | None => None
         end in
  match hit with
  | Some e => (Fulfilled (entry_certificates e), cache, false)
  | None =>
      match listCertificates with
      | Fulfilled l =>
          (Fulfilled l,
           Some {| entry_certificates := l; timestamp := now |}, true)
      | Rejected e => (Rejected e, cache, true)
      end
  end.

(** Modelled from the spec: [CertificateCache.invalidate] of the missing
    backend, "marks the current entry stale immediately (next get will
    re-fetch)"; the entry is "destroyed ... on explicit invalidation". *)
Definition invalidate (cache : option CacheEntry) : option CacheEntry := None.

(** Modelled from the spec: the missing command [revoke_certificate].
    "Issues the remote revoke call; on success, invalidates the cache ...
    On remote failure, the cache is left untouched and the error
    propagates."  [revokeCertificate] is the answer of the remote call. *)
Definition revoke (revokeCertificate : settled unit)
    (cache : option CacheEntry) : settled unit * option CacheEntry :=
  match revokeCertificate with
  | Fulfilled u => (Fulfilled u, invalidate cache)
  | Rejected e => (Rejected e, cache)
  end.

(** Modelled from the spec: the outcome of one sub-item (one certificate
    to revoke, one App ID to delete) of the missing command [cleanup_all]:
    "each sub-item operation returns a per-item outcome". *)
Inductive item_outcome : Type :=
| Completed
| Failed (description : string).

(** Modelled from the spec: what the signing authority holds when the
    missing command [cleanup_all] runs, given as the outcome that each
    certificate and each App ID will have. *)
Record Account : Type := {
  certificate_outcomes : list item_outcome;
  appId_outcomes : list item_outcome
}.

(** Modelled from the spec: one step of the fold of the missing
    [cleanup_all] over the certificates: a success is counted, "every
    sub-item failure is captured as a string and appended to errors". *)
Definition record_certificate (r : Cleanup.CleanupResult) (o : item_outcome)
  : Cleanup.CleanupResult :=
  match o with
  | Completed =>
      {| Cleanup.certificatesRevoked := S (Cleanup.certificatesRevoked r);
         Cleanup.appIdsDeleted := Cleanup.appIdsDeleted r;
         Cleanup.errors := Cleanup.errors r |}
  | Failed d =>
      {| Cleanup.certificatesRevoked := Cleanup.certificatesRevoked r;
         Cleanup.appIdsDeleted := Cleanup.appIdsDeleted r;
         Cleanup.errors := Cleanup.errors r ++ [d] |}
  end.

(** Modelled from the spec: the same step of the missing [cleanup_all]
    for the App IDs. *)
Definition record_appId (r : Cleanup.CleanupResult) (o : item_outcome)
  : Cleanup.CleanupResult :=
  match o with
  | Completed =>
      {| Cleanup.certificatesRevoked := Cleanup.certificatesRevoked r;
         Cleanup.appIdsDeleted := S (Cleanup.appIdsDeleted r);
         Cleanup.errors := Cleanup.errors r |}
  | Failed d =>
      {| Cleanup.certificatesRevoked := Cleanup.certificatesRevoked r;
         Cleanup.appIdsDeleted := Cleanup.appIdsDeleted r;
         Cleanup.errors := Cleanup.errors r ++ [d] |}
  end.

(** Modelled from the spec: the missing command [cleanup_all].  "Total
    failure (cannot reach remote authority at all) surfaces as a single
    top-level error and yields no CleanupResult"; otherwise "the
    orchestrator folds [the per-item outcomes] into counts + error list
    rather than short-circuiting on first failure", revoking the
    certificates first and deleting the App IDs next. *)
Definition cleanup_all (authority : settled Account)
  : settled Cleanup.CleanupResult :=
  match authority with
  | Rejected e => Rejected e
  | Fulfilled a =>
      Fulfilled
        (fold_left record_appId (appId_outcomes a)
           (fold_left record_certificate (certificate_outcomes a)
              {| Cleanup.certificatesRevoked := 0;
                 Cleanup.appIdsDeleted := 0;
                 Cleanup.errors := [] |}))
  end.

End Backend.

(* ===================================================================== *)
(** ** The certificate page in front of the modelled backend *)
(* ===================================================================== *)

Module System.
Import Js Sync.

(** What the signing authority answers at one moment. *)
Record Authority : Type := {
  listCertificates : settled (list Certificates.RawCertificate);
  revokeCertificate : string -> settled unit
}.

Record System : Type := {
  page : Certificates.World;
  cache : option Backend.CacheEntry;
  remote_fetches : nat
}.

Definition initial : System :=
  {| page := Certificates.initial; cache := None; remote_fetches := 0 |}.

(** Modelled from the spec: how the missing backend answers a request of
    the page.  At time [now] it handles the request [id] that is in
    flight and the page receives the reply.  [get_certificates_cached]
    carries no argument, so it is [CertificateCache.get] without a forced
    refresh; [remote_fetches] counts the remote [listCertificates] calls. *)
Definition serve (id : nat) (now : Z) (auth : Authority) (sys : System)
  : System :=
  match Certificates.take_request id (Certificates.pending (page sys)) with
  | Some (Certificates.get_certificates_cached, _) =>
      let '(reply, cache', fetched) :=
        Backend.get false now (listCertificates auth) (cache sys) in
      {| page := Certificates.settle_get id reply (page sys);
         cache := cache';
         remote_fetches :=
           if fetched then S (remote_fetches sys) else remote_fetches sys |}
  | Some (Certificates.revoke_certificate serialNumber, _) =>
      let '(reply, cache') :=
        Backend.revoke (revokeCertificate auth serialNumber) (cache sys) in
      {| page := Certificates.settle_revoke id reply (page sys);
         cache := cache';
         remote_fetches := remote_fetches sys |}
  | None => sys
  end.

Definition on_page (f : Certificates.World -> Certificates.World)
    (sys : System) : System :=
  {| page := f (page sys); cache := cache sys;
     remote_fetches := remote_fetches sys |}.

Inductive event : Type :=
| Load
| Revoke (serialNumber : string)
| Serve (id : nat) (now : Z) (auth : Authority).

Definition step (sys : System) (e : event) : System :=
  match e with
  | Load => on_page Certificates.loadCertificates sys
  | Revoke s => on_page (Certificates.revokeCertificate s) sys
  | Serve id now auth => serve id now auth sys
  end.

Definition run (evs : list event) (sys : System) : System :=
  fold_left step evs sys.

(** One load from an idle page, answered at time [now]: the call, then
    the backend serving the request the call issued. *)
Definition load_at (now : Z) (auth : Authority) (sys : System) : System :=
  let id := Certificates.next_id (page sys) in
  serve id now auth (step sys Load).

(** Modelled from the spec: the missing command [cleanup_all] answering a
    request of the cleanup page. *)
Definition serve_cleanup (id : nat) (authority : settled Backend.Account)
    (w : Cleanup.World) : Cleanup.World :=
  Cleanup.settle id (Backend.cleanup_all authority) w.

(** One confirmed click on the cleanup button, answered by the backend. *)
Definition runCleanup (authority : settled Backend.Account) (w : Cleanup.World)
  : Cleanup.World :=
  serve_cleanup (Cleanup.next_id w) authority (Cleanup.performCleanup true w).

End System.

(* ===================================================================== *)
(** ** Notions used to state the properties *)
(* ===================================================================== *)

Module Props.
Import Js Sync.

(** A raw entry carries both required fields: a [certificateId] and a
    [serialNumber] that are present and not empty. *)
Definition has_required_fields (cert : Certificates.RawCertificate) : bool :=
  match Certificates.raw_certificateId cert, Certificates.raw_serialNumber cert with
  | Some (String _ _), Some (String _ _) => true
  | _, _ => false
  end.

(** The bookkeeping that every reachable world of the certificate page
    satisfies: the guard [loadingRef] is set exactly while one fetch is in
    flight, [loading] follows it, and request identifiers are fresh. *)
Definition consistent (w : Certificates.World) : Prop :=
  Certificates.fetches_in_flight w
  = (if Certificates.loadingRef (Certificates.ui w) then 1 else 0)
  /\ Certificates.loading (Certificates.ui w)
     = Certificates.loadingRef (Certificates.ui w)
  /\ Forall (fun r => Certificates.req_id r < Certificates.next_id w)
       (Certificates.pending w)
  /\ Forall (fun o => fst o < Certificates.next_id w)
       (Certificates.outcomes w).

(** Between two worlds, one more [get_certificates_cached] request has
    been issued: a (re)load was started. *)
Definition fetch_requested (before after : Certificates.World) : Prop :=
  Certificates.fetches_issued after = S (Certificates.fetches_issued before).

(** Sub-items of a cleanup that completed, and the descriptions of those
    that failed, in order. *)
Definition completed (l : list Backend.item_outcome) : nat :=
  length (filter (fun o => match o with
                           | Backend.Completed => true
                           | Backend.Failed _ => false
                           end) l).

Fixpoint failures (l : list Backend.item_outcome) : list string :=
  match l with
  | [] => []
  | Backend.Completed :: l' => failures l'
  | Backend.Failed d :: l' => d :: failures l'
  end.

(** A signing authority that lists [l] and accepts every revocation. *)
Definition listing (l : list Certificates.RawCertificate) : System.Authority :=
  {| System.listCertificates := Fulfilled l;
     System.revokeCertificate := fun _ => Fulfilled tt |}.

(** What every reachable world of the cleanup page satisfies: a request
    in flight means that [loading] is set, and there is at most one. *)
Definition cleanup_consistent (w : Cleanup.World) : Prop :=
  (Cleanup.pending w <> [] -> Cleanup.loading (Cleanup.ui w) = true)
  /\ length (Cleanup.pending w) <= 1.

(** The result that the modelled [cleanup_all] owes for an account. *)
Definition tally (account : Backend.Account) : Cleanup.CleanupResult :=
  {| Cleanup.certificatesRevoked :=
       completed (Backend.certificate_outcomes account);
     Cleanup.appIdsDeleted := completed (Backend.appId_outcomes account);
     Cleanup.errors :=
       failures (Backend.certificate_outcomes account)
       ++ failures (Backend.appId_outcomes account) |}.

(** An account with five certificates, of which the second and the fourth
    cannot be revoked, and no App ID. *)
Definition three_of_five (d1 d2 : string) : Backend.Account :=
  {| Backend.certificate_outcomes :=
       [Backend.Completed; Backend.Failed d1; Backend.Completed;
        Backend.Failed d2; Backend.Completed];
     Backend.appId_outcomes := [] |}.

(** An account with no certificate and no App ID. *)
Definition empty_account : Backend.Account :=
  {| Backend.certificate_outcomes := []; Backend.appId_outcomes := [] |}.

Definition nothing_done : Cleanup.CleanupResult :=
  {| Cleanup.certificatesRevoked := 0;
     Cleanup.appIdsDeleted := 0;
     Cleanup.errors := [] |}.

(** Two calls of [loadCertificates] in a row on the fresh page, then the
    one request fails. *)
Definition two_calls_then_failure : Certificates.World :=
  Certificates.run
    [Certificates.Call_loadCertificates;
     Certificates.Call_loadCertificates;
     Certificates.Settle_get 0 (Rejected (VString "network down"))]
    Certificates.initial.

(** A certificate as the authority lists it. *)
Definition listed_certificate : Certificates.RawCertificate :=
  {| Certificates.raw_name := Some "iPhone Developer";
     Certificates.raw_certificateId := Some "C1";
     Certificates.raw_serialNumber := Some "0A1B2C";
     Certificates.raw_machineName := None;
     Certificates.raw_machineId := None |}.



End Props.

(* ===================================================================== *)
(** ** What the certificate page renders, and what the user can do *)
(* ===================================================================== *)

Module CertificatesView.
Import Js Sync Certificates.
Local Open Scope nat_scope.

(** *** [String.prototype.trim] on UTF-8 bytes

    [trim] removes white space and line terminators from both ends: TAB,
    LF, VT, FF, CR, SPACE, U+00A0, U+FEFF, the line and paragraph
    separators U+2028 and U+2029, and the other space separators U+1680,
    U+2000 to U+200A, U+202F, U+205F and U+3000.  In UTF-8 these are the
    one, two and three byte sequences below. *)

Definition byte (c : ascii) : nat := nat_of_ascii c.

(** U+0009 to U+000D and U+0020. *)
Definition ws1 (c : ascii) : bool :=
  ((9 <=? byte c) && (byte c <=? 13)) || (byte c =? 32).

(** U+00A0 is [C2 A0]. *)
Definition ws2 (c1 c2 : ascii) : bool :=
  (byte c1 =? 194) && (byte c2 =? 160).

(** U+1680 is [E1 9A 80]; U+2000 to U+200A are [E2 80 80] to [E2 80 8A];
    U+2028, U+2029 and U+202F are [E2 80 A8], [E2 80 A9] and [E2 80 AF];
    U+205F is [E2 81 9F]; U+3000 is [E3 80 80]; U+FEFF is [EF BB BF]. *)
Definition ws3 (c1 c2 c3 : ascii) : bool :=
  ((byte c1 =? 225) && (byte c2 =? 154) && (byte c3 =? 128))
  || ((byte c1 =? 226) && (byte c2 =? 128)
      && (((128 <=? byte c3) && (byte c3 <=? 138))
          || (byte c3 =? 168) || (byte c3 =? 169) || (byte c3 =? 175)))
  || ((byte c1 =? 226) && (byte c2 =? 129) && (byte c3 =? 159))
  || ((byte c1 =? 227) && (byte c2 =? 128) && (byte c3 =? 128))
  || ((byte c1 =? 239) && (byte c2 =? 187) && (byte c3 =? 191)).

(** [s.trimStart()] *)
Fixpoint trimStart (s : string) : string :=
  match s with
  | EmptyString => EmptyString
  | String c1 s1 =>
      if ws1 c1 then trimStart s1
      else
        match s1 with
        | EmptyString => s
        | String c2 s2 =>
            if ws2 c1 c2 then trimStart s2
            else
              match s2 with
              | EmptyString => s
              | String c3 s3 => if ws3 c1 c2 c3 then trimStart s3 else s
              end
        end
  end.

(** The bytes of a string, last byte first. *)
Fixpoint reversed (s acc : string) : string :=
  match s with
  | EmptyString => acc
  | String c s' => reversed s' (String c acc)
  end.

(** [trimStart] on a string that is read from its end: the sequences are
    met last byte first. *)
Fixpoint trimReversed (s : string) : string :=
  match s with
  | EmptyString => EmptyString
  | String c1 s1 =>
      if ws1 c1 then trimReversed s1
      else
        match s1 with
        | EmptyString => s
        | String c2 s2 =>
            if ws2 c2 c1 then trimReversed s2
            else
              match s2 with
              | EmptyString => s
              | String c3 s3 => if ws3 c3 c2 c1 then trimReversed s3 else s
              end
        end
  end.

(** [s.trimEnd()] *)
Definition trimEnd (s : string) : string :=
  reversed (trimReversed (reversed s EmptyString)) EmptyString.

(** [s.trim()] *)
Definition trim (s : string) : string := trimEnd (trimStart s).

(** *** The JSX of the component *)

(** The cell of the "Machine ID" column:
    [cert.machineId && cert.machineId.trim() !== "" ? cert.machineId : "—"]. *)
Definition machineId_cell (cert : Certificate) : string :=
  if nonEmpty (machineId cert) && nonEmpty (trim (machineId cert))
  then machineId cert
  else "—".

(** One [<tr>]: its React key, its class, its four text cells, and the
    serial number that a click on its "Revoke" cell hands to
    [revokeCertificate]. *)
Record Row : Type := {
  key : string;
  className : string;
  cell_name : string;
  cell_serialNumber : string;
  cell_machineName : string;
  cell_machineId : string;
  revoke_serialNumber : string
}.

(** The arrow function handed to [certificates.map], for the entry at
    index [i] of [total] entries.  ([total] is at least 1 wherever the
    function is called, so [total - 1] is the same on natural numbers.) *)
Definition row (total : nat) (cert : Certificate) (i : nat) : Row :=
  {| key := certificateId cert;
     className :=
       ("certificate-item"
        ++ (if (i =? total - 1)%nat then " cert-item-last"
            else EmptyString))%string;
     cell_name := name cert;
     cell_serialNumber := serialNumber cert;
     cell_machineName := machineName cert;
     cell_machineId := machineId_cell cert;
     revoke_serialNumber := serialNumber cert |}.

(** [certificates.map((cert, i) => ...)], from index [i] on. *)
Fixpoint rows_from (total i : nat) (certs : list Certificate) : list Row :=
  match certs with
  | [] => []
  | cert :: rest => row total cert i :: rows_from total (S i) rest
  end.

Inductive Body : Type :=
| Message (text : string)
| Table (rows : list Row).

(** What the component returns: the message or the table, and whether the
    "Refresh" button is disabled. *)
Record View : Type := {
  body : Body;
  refresh_disabled : bool
}.

Definition render (st : State) : View :=
  {| body :=
       if length (certificates st) =? 0
       then Message (if loading st then "Loading certificates..."
                     else "No certificates found.")
       else Table (rows_from (length (certificates st)) 0 (certificates st));
     refresh_disabled := loading st |}.

(** *** The page driven through its interface

    What can happen to the mounted component: the mount effect
    ([useEffect(() => { loadCertificates(); }, [])]), a click on "Refresh"
    (ignored by the browser while the button is disabled), a click on the
    "Revoke" cell of a row element, which runs that element's handler
    [() => revokeCertificate(cert.serialNumber)], and the backend settling
    a request. *)
Inductive gesture : Type :=
| Mount
| ClickRefresh
| ClickRevoke (r : Row)
| BackendGet (id : nat) (reply : settled (list RawCertificate))
| BackendRevoke (id : nat) (reply : settled unit).

Definition act (w : World) (g : gesture) : World :=
  match g with
  | Mount => loadCertificates w
  | ClickRefresh =>
      if refresh_disabled (render (ui w)) then w else loadCertificates w
  | ClickRevoke r => revokeCertificate (revoke_serialNumber r) w
  | BackendGet id reply => settle_get id reply w
  | BackendRevoke id reply => settle_revoke id reply w
  end.

(** The row elements that the component returns for a state. *)
Definition rows_of (st : State) : list Row :=
  match body (render st) with
  | Message _ => []
  | Table rows => rows
  end.

Definition row_eqb (r r' : Row) : bool :=
  String.eqb (key r) (key r')
  && String.eqb (className r) (className r')
  && String.eqb (cell_name r) (cell_name r')
  && String.eqb (cell_serialNumber r) (cell_serialNumber r')
  && String.eqb (cell_machineName r) (cell_machineName r')
  && String.eqb (cell_machineId r) (cell_machineId r')
  && String.eqb (revoke_serialNumber r) (revoke_serialNumber r').

(** Which rows are on screen is decided by React, which matches rows by
    [key]; the keys are [certificateId]s, which nothing makes distinct, and
    with equal keys a row of an earlier render can stay on screen.  So the
    page in use is the world together with every row element that the
    component has returned so far: whatever is on screen is among them. *)
Record Screen : Type := {
  world : World;
  returned : list Row
}.

Definition mounted : Screen :=
  {| world := initial; returned := rows_of (ui initial) |}.

(** A "Revoke" cell can be clicked only if its row was returned by some
    render so far. *)
Definition clickable (s : Screen) (g : gesture) : bool :=
  match g with
  | ClickRevoke r => existsb (row_eqb r) (returned s)
  | _ => true
  end.

(** One gesture, then the render of the new state. *)
Definition on_screen (s : Screen) (g : gesture) : Screen :=
  if clickable s g then
    let w := act (world s) g in
    {| world := w; returned := returned s ++ rows_of (ui w) |}
  else s.

Definition use (gs : list gesture) (s : Screen) : Screen :=
  fold_left on_screen gs s.

(** The serial numbers of the revocations requested so far. *)
Fixpoint revoked_serials (l : list command) : list string :=
  match l with
  | [] => []
  | get_certificates_cached :: l' => revoked_serials l'
  | revoke_certificate s :: l' => s :: revoked_serials l'
  end.

(** A certificate as the backend sends it when no field is missing. *)
Definition as_raw (cert : Certificate) : RawCertificate :=
  {| raw_name := Some (name cert);
     raw_certificateId := Some (certificateId cert);
     raw_serialNumber := Some (serialNumber cert);
     raw_machineName := Some (machineName cert);
     raw_machineId := Some (machineId cert) |}.

(** A certificate whose name and two identifiers are not empty. *)
Definition well_formed (cert : Certificate) : bool :=
  nonEmpty (name cert) && nonEmpty (certificateId cert)
  && nonEmpty (serialNumber cert).

(** What the page keeps true of its table and of its revocations: every
    certificate on display has a name and both identifiers, and no
    revocation was requested for an empty serial number. *)
Definition listing_valid (w : World) : Prop :=
  Forall (fun c => well_formed c = true) (certificates (ui w))
  /\ Forall (fun s => s <> EmptyString) (revoked_serials (issued w)).

(** What holds of every row element returned: the serial number that its
    "Revoke" cell requests is the one that the row shows, and it is not
    empty. *)
Definition row_valid (r : Row) : Prop :=
  revoke_serialNumber r = cell_serialNumber r
  /\ revoke_serialNumber r <> EmptyString.

(** [str.endsWith(suffix)], as a proposition. *)
Definition ends_with (s suffix : string) : Prop :=
  exists pre : string, s = (pre ++ suffix)%string.

End CertificatesView.

(* ===================================================================== *)
(** ** What the cleanup page renders *)
(* ===================================================================== *)

Module CleanupView.
Import Js Sync Cleanup.

(** The block under [{result.errors.length > 0 && ...}]: the number in the
    heading and the list items. *)
Record ErrorSection : Type := {
  heading_count : nat;
  items : list string
}.

(** The card under [{result && ...}]. *)
Record Panel : Type := {
  shown_certificatesRevoked : nat;
  shown_appIdsDeleted : nat;
  error_section : option ErrorSection
}.

Record View : Type := {
  button_disabled : bool;
  button_label : string;
  panel : option Panel
}.

Definition render (st : State) : View :=
  {| button_disabled := loading st;
     button_label :=
       if loading st then "Очистка..." else "Начать очистку всех данных";
     panel :=
       match result st with
       | None => None
       | Some r =>
           Some {| shown_certificatesRevoked := certificatesRevoked r;
                   shown_appIdsDeleted := appIdsDeleted r;
                   error_section :=
                     if (0 <? length (errors r))%nat
                     then Some {| heading_count := length (errors r);
                                  items := errors r |}
                     else None |}
       end |}.

(** What every reachable world of the cleanup page satisfies about what it
    displays: no result while [loading] is set, and a result on display
    is the reply of the cleanup that settled last. *)
Definition display_consistent (w : World) : Prop :=
  (loading (ui w) = true -> result (ui w) = None)
  /\ (forall r : CleanupResult,
        result (ui w) = Some r ->
        exists (id : nat) (earlier : list (nat * completion CleanupResult)),
          outcomes w = earlier ++ [(id, Normal r)]).

End CleanupView.

(* ===================================================================== *)
(** ** The update check ([checkForUpdates]) *)
(* ===================================================================== *)

Module Updater.
Import Js Sync.

(** The numbers that reach the progress callback are byte counts.  A
    JavaScript number is a binary64 float; on non-negative integers its
    addition is the exact sum rounded to 53 significant bits (ties to
    even), and a sum that rounds to [2^1024] or more is [Infinity]. *)
Inductive number : Type :=
| Int (n : N)
| Infinity.

Definition round53 (n : N) : N :=
  (if n <? 2 ^ 53 then n
   else
     let ulp := 2 ^ (N.log2 n - 52) in
     let q := n / ulp in
     let r := n mod ulp in
     let half := ulp / 2 in
     if r <? half then q * ulp
     else if half <? r then (q + 1) * ulp
     else if N.even q then q * ulp else (q + 1) * ulp)%N.

(** [a + b] *)
Definition plus (a b : number) : number :=
  match a, b with
  | Int x, Int y =>
      let r := round53 (x + y) in
      if (r <? 2 ^ 1024)%N then Int r else Infinity
  | _, _ => Infinity
  end.

(** The object that [check()] resolves with when an update exists. *)
Record Update : Type := { version : string }.

(** The [event] handed to the callback of [downloadAndInstall];
    [contentLength] may be absent. *)
Inductive DownloadEvent : Type :=
| Started (contentLength : option number)
| Progress (chunkLength : number)
| Finished.

(** The two local variables that the callback closes over. *)
Record Counters : Type := {
  downloaded : number;
  contentLength : option number
}.

(** A [console.log] line, kept as the values that its template shows. *)
Inductive line : Type :=
| started_downloading (contentLength : option number)
| downloaded_from (downloaded : number) (contentLength : option number)
| download_finished.

(** The callback [(event) => { switch (event.event) ... }], on the
    counters and the lines logged so far. *)
Definition on_event (st : Counters * list line) (event : DownloadEvent)
  : Counters * list line :=
  let '(c, lines) := st in
  match event with
  | Started len =>
      ({| downloaded := downloaded c; contentLength := len |},
       lines ++ [started_downloading len])
  | Progress chunkLength =>
      let d := plus (downloaded c) chunkLength in
      ({| downloaded := d; contentLength := contentLength c |},
       lines ++ [downloaded_from d (contentLength c)])
  | Finished => (c, lines ++ [download_finished])
  end.

(** [let downloaded = 0; let contentLength: number | undefined = 0;] and
    then the callback on every event of the download, in order. *)
Definition after_download (events : list DownloadEvent)
  : Counters * list line :=
  fold_left on_event events
    ({| downloaded := Int 0; contentLength := Some (Int 0) |}, []).

(** The functions of the Tauri plugins that [checkForUpdates] awaits. *)
Inductive call : Type :=
| check
| ask (message : string)
| downloadAndInstall
| relaunch.

Inductive effect : Type :=
| Called (c : call)
| Logged (l : line).

(** How the plugins answer during one run: what each awaited promise
    settles with, and the events that [downloadAndInstall] reports before
    it settles. *)
Record Environment : Type := {
  check_reply : settled (option Update);
  ask_reply : settled bool;
  download_events : list DownloadEvent;
  download_reply : settled unit;
  relaunch_reply : settled unit
}.

(** [await c(...)]: the call is made, then its settlement is awaited. *)
Definition perform {R : Type} (c : call) (reply : settled R)
  : M (list effect) R :=
  modify (fun t => t ++ [Called c]) ;;
  await reply.

(** [checkForUpdates], over the trace of what it has done. *)
Definition checkForUpdates (env : Environment) : M (list effect) unit :=
  update <- perform check (check_reply env) ;;
  match update with
  | None => ret tt
  | Some update =>
      confirmed <-
        perform
          (ask ("A new version is available: " ++ version update
                ++ ". Do you want to update?")%string)
          (ask_reply env) ;;
      if negb confirmed then ret tt
      else
        modify (fun t => t ++ [Called downloadAndInstall]) ;;
        modify (fun t =>
                  t ++ map Logged (snd (after_download (download_events env)))) ;;
        await (download_reply env) ;;
        perform relaunch (relaunch_reply env)
  end.

(** The sum of the chunk lengths of a download, when all of them are
    finite. *)
Fixpoint exact_total (events : list DownloadEvent) : option N :=
  match events with
  | [] => Some 0%N
  | Progress (Int n) :: rest =>
      match exact_total rest with
      | Some t => Some (n + t)%N
      | None => None
      end
  | Progress Infinity :: rest => None
  | _ :: rest => exact_total rest
  end.

(** The content length announced last, or the initial 0. *)
Definition announced (events : list DownloadEvent) : option number :=
  fold_left (fun acc event =>
               match event with
               | Started len => len
               | _ => acc
               end) events (Some (Int 0)).

End Updater.

(* ===================================================================== *)
(** ** [revokeCertificate] as its caller sees it *)
(* ===================================================================== *)

Module Revocation.
Import Js Sync Certificates.

(** [revokeCertificate] is an [async] function whose body has no [await],
    no [return] and no [throw]: it issues the request, hands the promise
    of [invoke] to [then] and to [toast.promise], and ends.  The promise
    that the caller gets is therefore fulfilled with [undefined] at the
    end of the call, before the backend has replied; the promise of
    [invoke] is neither returned nor awaited. *)
Definition revokeCertificate_async (serialNumber : string) : M World unit :=
  modify (revokeCertificate serialNumber).

(** A signing authority that lists [l] and refuses every revocation with
    the error [e]. *)
Definition refusing (l : list RawCertificate) (e : value) : System.Authority :=
  {| System.listCertificates := Fulfilled l;
     System.revokeCertificate := fun _ => Rejected e |}.

(** The page has loaded one certificate, which the backend has cached. *)
Definition one_certificate_loaded : list System.event :=
  [System.Load;
   System.Serve 0 0 (Props.listing [Props.listed_certificate])].

End Revocation.

(* ===================================================================== *)
(** ** Facts about the string operations *)
(* ===================================================================== *)

Import Js Sync.
Local Open Scope string_scope.

Lemma startsWith_append (p s : string) : startsWith (p ++ s) p = true.
Proof.
  induction p as [|a p IH]; simpl.
  - destruct s; reflexivity.
  - now rewrite Ascii.eqb_refl, IH.
Qed.

Lemma includes_here (s search : string) :
  startsWith s search = true -> includes s search = true.
Proof.
  intros H. destruct s; simpl in *; now rewrite H.
Qed.

Lemma includes_skip (a : ascii) (s search : string) :
  includes s search = true -> includes (String a s) search = true.
Proof.
  intros H. simpl. rewrite H. apply orb_true_r.
Qed.

(** A string includes whatever stands anywhere inside it. *)
Lemma includes_infix (pre search post : string) :
  includes (pre ++ search ++ post) search = true.
Proof.
  induction pre as [|a pre IH]; simpl.
  - apply includes_here, startsWith_append.
  - rewrite IH. apply orb_true_r.
Qed.

Lemma startsWith_split (s p : string) :
  startsWith s p = true -> exists post, s = p ++ post.
Proof.
  revert s. induction p as [|a p IH]; intros s H.
  - exists s. reflexivity.
  - destruct s as [|b s]; simpl in H; [discriminate|].
    apply andb_true_iff in H. destruct H as [Hab Hp].
    apply Ascii.eqb_eq in Hab. subst b.
    destruct (IH _ Hp) as [post ->]. exists post. reflexivity.
Qed.

Lemma includes_unfold (s search : string) :
  includes s search
  = startsWith s search
    || match s with
       | EmptyString => false
       | String _ s' => includes s' search
       end.
Proof. destruct s; reflexivity. Qed.

(** [includes] finds exactly the infixes. *)
Lemma includes_split (s search : string) :
  includes s search = true -> exists pre post, s = pre ++ search ++ post.
Proof.
  induction s as [|a s IH]; rewrite includes_unfold; intros H;
    apply orb_true_iff in H; destruct H as [H|H]; try discriminate.
  - destruct (startsWith_split _ _ H) as [post E].
    exists EmptyString, post. exact E.
  - destruct (startsWith_split _ _ H) as [post E].
    exists EmptyString, post. exact E.
  - destruct (IH H) as (pre & post & E).
    exists (String a pre), post. simpl. now rewrite E.
Qed.

Lemma append_assoc (a b c : string) : (a ++ b) ++ c = a ++ b ++ c.
Proof.
  induction a as [|x a IH]; simpl; [reflexivity | now rewrite IH].
Qed.

(** Appending on the right keeps what a string includes. *)
Lemma includes_append_r (s search post : string) :
  includes s search = true -> includes (s ++ post) search = true.
Proof.
  intros H. destruct (includes_split _ _ H) as (pre & mid & ->).
  rewrite !append_assoc. apply includes_infix.
Qed.

Local Open Scope list_scope.

(* ===================================================================== *)
(** ** Loading certificates: validation and error classification *)
(* ===================================================================== *)

Section CertificatePage.
Import Certificates.

(** What [promise] does once the fetch has settled, case by case. *)
Lemma after_await_fulfilled (raw : list RawCertificate)
    (st : State) :
  after_await promise (Fulfilled raw) st
  = (Normal tt,
     {| certificates := filter identified (map validate raw);
        loading := false;
        loadingRef := false |}).
Proof. reflexivity. Qed.

Lemma after_await_rejected (error : value) (st : State) :
  after_await promise (Rejected error) st
  = (Thrown (if mentions_machineId (String_ error)
             then VError (detailedError (String_ error))
             else error),
     {| certificates := certificates st;
        loading := false;
        loadingRef := false |}).
Proof.
  unfold promise, after_await, try_catch_finally, bind, await, throw.
  destruct (mentions_machineId (String_ error)); reflexivity.
Qed.

Lemma identified_validate (cert : RawCertificate) :
  identified (validate cert)
  = Props.has_required_fields cert.
Proof.
  unfold identified, Props.has_required_fields. simpl.
  destruct (raw_certificateId cert) as [[|? ?]|];
    destruct (raw_serialNumber cert) as [[|? ?]|]; reflexivity.
Qed.



Lemma validate_name (cert : RawCertificate) :
  name (validate cert)
  = match raw_name cert with
    | Some (String a n) => String a n
    | _ => "Unknown"
    end.
Proof.
  simpl. destruct (raw_name cert) as [[|? ?]|]; reflexivity.
Qed.


(** The detailed message is a fixed preamble followed by the original
    message. *)
Lemma detailedError_preamble (errorMsg : string) :
  detailedError errorMsg
  = (detailedError EmptyString ++ errorMsg)%string.
Proof. reflexivity. Qed.

Lemma detailedError_includes (errorMsg text : string) :
  includes (detailedError EmptyString) text = true ->
  includes (detailedError errorMsg) text = true.
Proof.
  intros H. rewrite detailedError_preamble. now apply includes_append_r.
Qed.

(** The test of the [catch] block is true exactly for the texts that
    contain one of the three markers. *)
Lemma mentions_machineId_markers (errorMsg : string) :
  mentions_machineId errorMsg = true
  <-> includes errorMsg "machineId" = true
      \/ includes errorMsg "Parse" = true
      \/ includes errorMsg "machineld" = true.
Proof.
  unfold mentions_machineId. rewrite !orb_true_iff. tauto.
Qed.

(** C3, as stated, fails.  "JSON Parse error: Unexpected EOF" does not
    contain the documented substring "machineId", so it is one of the
    other fetch failures; yet it does not propagate unchanged: the load
    fails with the reworded parse error, because the text contains
    "Parse". *)
Lemma parse_failure_without_machineId_is_reworded :
  ~ (includes "JSON Parse error: Unexpected EOF" "machineId" = false ->
     fst (after_await promise
            (Rejected (VString "JSON Parse error: Unexpected EOF"))
            (ui initial))
     = Thrown (VString "JSON Parse error: Unexpected EOF")).
Proof.
  intros H. specialize (H eq_refl). vm_compute in H. discriminate H.
Qed.

(** C3, amended.  When the fetch fails with [error] and the text of the
    error contains "machineId", "Parse" or "machineld", the load fails
    with a new [Error] whose message ends with the original text and
    contains the four remediation steps (log in again, revoke and recreate
    the certificates, check for updates, report the problem), and the
    toast shows that message in full.  When the text contains none of the
    three markers, the load fails with [error] itself, unchanged. *)
Theorem load_failure_is_classified :
  forall (error : value) (st : State),
    let errorMsg := String_ error in
    let r := after_await promise (Rejected error) st in
    (includes errorMsg "machineId" = true
     \/ includes errorMsg "Parse" = true
     \/ includes errorMsg "machineld" = true ->
       fst r = Thrown (VError (detailedError errorMsg))
       /\ (exists preamble : string,
             detailedError errorMsg = (preamble ++ errorMsg)%string)
       /\ includes (detailedError errorMsg) step1 = true
       /\ includes (detailedError errorMsg) step2 = true
       /\ includes (detailedError errorMsg) step3 = true
       /\ includes (detailedError errorMsg) step4 = true
       /\ load_error_text (VError (detailedError errorMsg))
          = ("Error: " ++ detailedError errorMsg)%string)
    /\ (includes errorMsg "machineId" = false ->
        includes errorMsg "Parse" = false ->
        includes errorMsg "machineld" = false ->
        fst r = Thrown error).
Proof.
  intros error st errorMsg r. subst r errorMsg.
  rewrite after_await_rejected. split.
  - intros H. apply mentions_machineId_markers in H. rewrite H. cbn [fst].
    set (errorMsg := String_ error).
    split; [reflexivity|].
    split; [exists (detailedError EmptyString);
            apply detailedError_preamble|].
    split; [apply detailedError_includes; vm_compute; reflexivity|].
    split; [apply detailedError_includes; vm_compute; reflexivity|].
    split; [apply detailedError_includes; vm_compute; reflexivity|].
    split; [apply detailedError_includes; vm_compute; reflexivity|].
    unfold load_error_text.
    assert (E : String_ (VError (detailedError errorMsg))
                = ("Error: " ++ detailedError errorMsg)%string)
      by reflexivity.
    rewrite E.
    assert (I : includes ("Error: " ++ detailedError errorMsg) nl
                = true).
    { rewrite detailedError_preamble, <- append_assoc.
      apply includes_append_r. vm_compute. reflexivity. }
    now rewrite I.
  - intros H1 H2 H3. unfold mentions_machineId. rewrite H1, H2, H3.
    reflexivity.
Qed.

Lemma load_failure_is_classified_witness :
  fst (after_await promise
         (Rejected (VString "Failed to parse: machineId"))
         (ui initial))
  = Thrown (VError (detailedError "Failed to parse: machineId"))
  /\ fst (after_await promise
            (Rejected (VString "JSON Parse error: Unexpected EOF"))
            (ui initial))
     = Thrown (VError (detailedError "JSON Parse error: Unexpected EOF"))
  /\ fst (after_await promise
            (Rejected (VString "unknown field machineld"))
            (ui initial))
     = Thrown (VError (detailedError "unknown field machineld"))
  /\ fst (after_await promise
            (Rejected (VString "connection refused"))
            (ui initial))
     = Thrown (VString "connection refused").
Proof.
  split; [|split; [|split]].
  - apply (load_failure_is_classified
             (VString "Failed to parse: machineId") (ui initial)).
    left. reflexivity.
  - apply (load_failure_is_classified
             (VString "JSON Parse error: Unexpected EOF") (ui initial)).
    right. left. reflexivity.
  - apply (load_failure_is_classified
             (VString "unknown field machineld") (ui initial)).
    right. right. reflexivity.
  - apply (proj2 (load_failure_is_classified
                    (VString "connection refused") (ui initial)));
      reflexivity.
Defined.

(* ===================================================================== *)
(** ** The certificate page: what every reachable world satisfies *)
(* ===================================================================== *)

Lemma take_request_get (id : nat) (l rest : list Request)
    (c : command) :
  take_request id l = Some (c, rest) ->
  length (filter is_get l)
  = (match c with
     | get_certificates_cached => 1
     | revoke_certificate _ => 0
     end) + length (filter is_get rest).
Proof.
  revert rest. induction l as [|r l IH]; intros rest H; simpl in H.
  - discriminate.
  - destruct (Nat.eqb (req_id r) id).
    + injection H as <- <-. simpl. unfold is_get at 1.
      destruct (req_cmd r); reflexivity.
    + destruct (take_request id l) as [[c' rest']|];
        [|discriminate].
      injection H as <- <-. specialize (IH _ eq_refl). simpl.
      destruct (is_get r); simpl; rewrite IH; lia.
Qed.

Lemma take_request_Forall (P : Request -> Prop) (id : nat)
    (l rest : list Request) (c : command) :
  take_request id l = Some (c, rest) ->
  Forall P l -> Forall P rest.
Proof.
  revert rest. induction l as [|r l IH]; intros rest H F; simpl in H.
  - discriminate.
  - inversion F as [|? ? Pr Fl]; subst.
    destruct (Nat.eqb (req_id r) id).
    + injection H as <- <-. exact Fl.
    + destruct (take_request id l) as [[c' rest']|];
        [|discriminate].
      injection H as <- <-. constructor; [exact Pr | now apply IH].
Qed.

(** A request with a fresh identifier, put last, is the one found. *)
Lemma take_request_last (id : nat) (l : list Request)
    (c : command) :
  Forall (fun r => req_id r < id) l ->
  take_request id
    (l ++ [{| req_id := id; req_cmd := c |}])
  = Some (c, l).
Proof.
  induction l as [|r l IH]; intros F; simpl.
  - now rewrite Nat.eqb_refl.
  - inversion F as [|? ? Pr Fl]; subst.
    destruct (Nat.eqb_spec (req_id r) id) as [E|_]; [lia|].
    now rewrite (IH Fl).
Qed.

Lemma Forall_lt_S {A} (f : A -> nat) (n : nat) (l : list A) :
  Forall (fun x => f x < n) l -> Forall (fun x => f x < S n) l.
Proof. apply Forall_impl. intros; lia. Qed.

Lemma filter_is_get_snoc (l : list Request)
    (r : Request) :
  length (filter is_get (l ++ [r]))
  = length (filter is_get l)
    + (if is_get r then 1 else 0).
Proof.
  rewrite filter_app, length_app. simpl.
  destruct (is_get r); reflexivity.
Qed.

Lemma initial_consistent : Props.consistent initial.
Proof. repeat split; constructor. Qed.

Lemma loadCertificates_consistent (w : World) :
  Props.consistent w -> Props.consistent (loadCertificates w).
Proof.
  intros (Hn & Hl & Hp & Ho). unfold loadCertificates.
  destruct (loadingRef (ui w)) eqn:G.
  - unfold Props.consistent, fetches_in_flight in *. simpl.
    rewrite G. auto.
  - unfold Props.consistent, fetches_in_flight in *. simpl.
    rewrite filter_is_get_snoc, Hn. simpl.
    repeat split.
    + apply Forall_app. split.
      * now apply Forall_lt_S.
      * constructor; [simpl; lia | constructor].
    + now apply Forall_lt_S.
Qed.

Lemma revokeCertificate_consistent (serial : string) (w : World) :
  Props.consistent w ->
  Props.consistent (revokeCertificate serial w).
Proof.
  intros (Hn & Hl & Hp & Ho).
  unfold Props.consistent, fetches_in_flight in *. simpl.
  rewrite filter_is_get_snoc. simpl. rewrite Nat.add_0_r.
  repeat split; trivial.
  - apply Forall_app. split.
    + now apply Forall_lt_S.
    + constructor; [simpl; lia | constructor].
  - now apply Forall_lt_S.
Qed.

Lemma take_request_id (id : nat) (l rest : list Request)
    (c : command) :
  take_request id l = Some (c, rest) ->
  In {| req_id := id; req_cmd := c |} l.
Proof.
  revert rest. induction l as [|r l IH]; intros rest H; simpl in H.
  - discriminate.
  - destruct (Nat.eqb_spec (req_id r) id) as [E|_].
    + injection H as <- <-. left. destruct r; simpl in *. now subst.
    + destruct (take_request id l) as [[c' rest']|];
        [|discriminate].
      injection H as <- <-. right. now apply (IH rest').
Qed.

Lemma take_request_lt (id n : nat) (l rest : list Request)
    (c : command) :
  take_request id l = Some (c, rest) ->
  Forall (fun r => req_id r < n) l -> id < n.
Proof.
  intros H F. apply take_request_id in H.
  rewrite Forall_forall in F. exact (F _ H).
Qed.

(** However the fetch settles, [finally] has cleared both flags. *)
Lemma after_await_flags (reply : settled (list RawCertificate))
    (st : State) :
  loading (snd (after_await promise reply st)) = false
  /\ loadingRef (snd (after_await promise reply st))
     = false.
Proof.
  destruct reply; [rewrite after_await_fulfilled | rewrite after_await_rejected];
    split; reflexivity.
Qed.

Lemma settle_get_found (id : nat)
    (reply : settled (list RawCertificate))
    (w : World) (rest : list Request) :
  take_request id (pending w)
  = Some (get_certificates_cached, rest) ->
  settle_get id reply w
  = let r := after_await promise reply (ui w) in
    {| ui := snd r;
       pending := rest;
       issued := issued w;
       next_id := next_id w;
       toasts := toasts w ++
         [match fst r with
          | Normal _ =>
              ToastSuccess "Сертификаты успешно загружены!"
          | Thrown e => ToastError (load_error_text e)
          end];
       load_calls := load_calls w;
       outcomes := outcomes w ++ [(id, fst r)] |}.
Proof.
  intros H. unfold settle_get. rewrite H.
  destruct (after_await promise reply (ui w)).
  reflexivity.
Qed.

Lemma settle_get_consistent (id : nat)
    (reply : settled (list RawCertificate))
    (w : World) :
  Props.consistent w -> Props.consistent (settle_get id reply w).
Proof.
  intros C.
  destruct (take_request id (pending w))
    as [[[|serial] rest]|] eqn:T.
  - rewrite (settle_get_found _ _ _ _ T).
    destruct C as (Hn & Hl & Hp & Ho).
    destruct (after_await_flags reply (ui w)) as [F1 F2].
    unfold Props.consistent, fetches_in_flight in *.
    cbn [ui pending next_id outcomes].
    rewrite F1, F2.
    pose proof (take_request_get _ _ _ _ T) as Hc. rewrite Hn in Hc.
    repeat split.
    + destruct (loadingRef (ui w)); lia.
    + exact (take_request_Forall _ _ _ _ _ T Hp).
    + apply Forall_app. split; [exact Ho|].
      constructor; [|constructor]. simpl.
      exact (take_request_lt _ _ _ _ _ T Hp).
  - unfold settle_get. rewrite T. exact C.
  - unfold settle_get. rewrite T. exact C.
Qed.

Lemma settle_revoke_consistent (id : nat) (reply : settled unit)
    (w : World) :
  Props.consistent w ->
  Props.consistent (settle_revoke id reply w).
Proof.
  intros C. unfold settle_revoke.
  destruct (take_request id (pending w))
    as [[[|serial] rest]|] eqn:T; trivial.
  destruct C as (Hn & Hl & Hp & Ho).
  pose proof (take_request_get _ _ _ _ T) as Hc.
  pose proof (take_request_Forall _ _ _ _ _ T Hp) as Hr.
  pose proof (take_request_lt _ _ _ _ _ T Hp) as Hid.
  set (w0 := {| ui := ui w;
                pending := rest;
                issued := issued w;
                next_id := next_id w;
                toasts := toasts w;
                load_calls := load_calls w;
                outcomes := outcomes w |}).
  assert (C0 : Props.consistent w0).
  { unfold Props.consistent, fetches_in_flight in *. simpl.
    repeat split; trivial. lia. }
  destruct reply as [u|e].
  - destruct (loadCertificates_consistent _ C0) as (Hn1 & Hl1 & Hp1 & Ho1).
    unfold Props.consistent, fetches_in_flight in *.
    cbn [ui pending next_id outcomes].
    repeat split; trivial.
    apply Forall_app. split; [exact Ho1|].
    constructor; [|constructor]. simpl.
    unfold loadCertificates.
    destruct (loadingRef (ui w0)); simpl; lia.
  - destruct C0 as (Hn0 & Hl0 & Hp0 & Ho0).
    unfold Props.consistent, fetches_in_flight in *.
    cbn [ui pending next_id outcomes] in *.
    repeat split; trivial.
    apply Forall_app. split; [exact Ho0|].
    constructor; [|constructor]. exact Hid.
Qed.

Lemma step_consistent (w : World) (e : event) :
  Props.consistent w -> Props.consistent (step w e).
Proof.
  destruct e; simpl.
  - apply loadCertificates_consistent.
  - apply revokeCertificate_consistent.
  - apply settle_get_consistent.
  - apply settle_revoke_consistent.
Qed.

Lemma run_consistent (evs : list event) (w : World) :
  Props.consistent w -> Props.consistent (run evs w).
Proof.
  revert w. induction evs as [|e evs IH]; intros w C; simpl.
  - exact C.
  - apply IH, step_consistent, C.
Qed.

Lemma reachable_consistent (evs : list event) :
  Props.consistent (run evs initial).
Proof. apply run_consistent, initial_consistent. Qed.

(* ===================================================================== *)
(** ** Concurrent loads *)
(* ===================================================================== *)

(** A call that finds the guard set changes nothing but the record of
    calls. *)
Lemma loadCertificates_guarded (w : World) :
  loadingRef (ui w) = true ->
  loadCertificates w
  = {| ui := ui w;
       pending := pending w;
       issued := issued w;
       next_id := next_id w;
       toasts := toasts w;
       load_calls := load_calls w ++ [ReturnedAtGuard];
       outcomes := outcomes w |}.
Proof. intros G. unfold loadCertificates. now rewrite G. Qed.

(** A call that finds the guard clear sets both flags and issues one
    request. *)
Lemma loadCertificates_idle (w : World) :
  loadingRef (ui w) = false ->
  loadCertificates w
  = {| ui :=
         {| certificates := certificates (ui w);
            loading := true;
            loadingRef := true |};
       pending := pending w ++
         [{| req_id := next_id w;
             req_cmd := get_certificates_cached |}];
       issued := issued w ++ [get_certificates_cached];
       next_id := S (next_id w);
       toasts := toasts w ++
         [ToastLoading "Загрузка сертификатов..."];
       load_calls := load_calls w
         ++ [Started (next_id w)];
       outcomes := outcomes w |}.
Proof. intros G. unfold loadCertificates. now rewrite G. Qed.

Lemma guarded_calls (n : nat) (w : World) :
  loadingRef (ui w) = true ->
  run (repeat Call_loadCertificates n) w
  = {| ui := ui w;
       pending := pending w;
       issued := issued w;
       next_id := next_id w;
       toasts := toasts w;
       load_calls := load_calls w ++ repeat ReturnedAtGuard n;
       outcomes := outcomes w |}.
Proof.
  revert w. induction n as [|n IH]; intros w G.
  - destruct w. simpl. now rewrite app_nil_r.
  - change (run (repeat Call_loadCertificates (S n)) w)
      with (run (repeat Call_loadCertificates n)
              (loadCertificates w)).
    rewrite (loadCertificates_guarded w G), IH by exact G.
    cbn [ui pending issued next_id toasts load_calls outcomes].
    now rewrite <- app_assoc.
Qed.

Lemma outcome_of_last (id : nat) (c : completion unit)
    (l : list (nat * completion unit)) :
  Forall (fun o => fst o < id) l ->
  outcome_of id (l ++ [(id, c)]) = Some c.
Proof.
  induction l as [|[i c'] l IH]; intros F; simpl.
  - now rewrite Nat.eqb_refl.
  - inversion F as [|? ? Hi Fl]; subst. simpl in Hi.
    destruct (Nat.eqb_spec i id) as [E|_]; [lia|]. now apply IH.
Qed.

Lemma fetches_issued_snoc (w : World) (l : list command) :
  issued w = l ++ [get_certificates_cached] ->
  fetches_issued w
  = S (length (filter (fun c => match c with
                                | get_certificates_cached => true
                                | revoke_certificate _ => false
                                end) l)).
Proof.
  intros E. unfold fetches_issued.
  rewrite E, filter_app, length_app. simpl. lia.
Qed.

(** A burst of [S n] calls into an idle page, then the reply to the one
    request they issued. *)
Lemma burst_then_reply (n : nat)
    (reply : settled (list RawCertificate))
    (w0 : World) :
  Props.consistent w0 ->
  loadingRef (ui w0) = false ->
  run (repeat Call_loadCertificates (S n)
     ++ [Settle_get (next_id w0) reply]) w0
  = let r := after_await promise reply
               (ui (loadCertificates w0)) in
    {| ui := snd r;
       pending := pending w0;
       issued := issued w0 ++ [get_certificates_cached];
       next_id := S (next_id w0);
       toasts := (toasts w0 ++
         [ToastLoading "Загрузка сертификатов..."]) ++
         [match fst r with
          | Normal _ =>
              ToastSuccess "Сертификаты успешно загружены!"
          | Thrown e => ToastError (load_error_text e)
          end];
       load_calls := (load_calls w0
          ++ [Started (next_id w0)])
         ++ repeat ReturnedAtGuard n;
       outcomes := outcomes w0 ++ [(next_id w0, fst r)] |}.
Proof.
  intros (Hn & Hl & Hp & Ho) G.
  unfold run. rewrite fold_left_app.
  change (fold_left step (repeat Call_loadCertificates (S n)) w0)
    with (run (repeat Call_loadCertificates n)
            (loadCertificates w0)).
  rewrite (loadCertificates_idle w0 G).
  rewrite guarded_calls by reflexivity.
  cbn [fold_left step ui pending issued next_id toasts load_calls outcomes].
  erewrite settle_get_found.
  2:{ cbn [pending]. apply take_request_last. exact Hp. }
  reflexivity.
Qed.

(** C1, as stated, fails.  Two calls arrive while nothing is cached and
    the one fetch fails: the first call's promise is rejected with the
    failure, the second call has returned at the guard and receives
    nothing, so it is not true that each of the two callers receives the
    result of the fetch. *)
Lemma guarded_caller_misses_the_result :
  fetches_issued Props.two_calls_then_failure = 1
  /\ ~ (forall k : nat, k < 2 ->
         received Props.two_calls_then_failure k
         = Some (Thrown (VString "network down"))).
Proof.
  split; [reflexivity|].
  intros H. specialize (H 1 (Nat.lt_succ_diag_r 1)).
  vm_compute in H. discriminate H.
Qed.

(** C1, amended.  At every moment at most one [get_certificates_cached]
    request is in flight.  A call of [loadCertificates] that arrives while
    one is in flight returns at once: it issues nothing, changes no state
    and gets no promise of its own.  So when [S n] calls arrive at an idle
    page, exactly one request is issued; once it settles, the component
    state is the one a single call would have produced, the first caller's
    promise has settled with the outcome of that fetch, and the other [n]
    callers, having returned at the guard, have received nothing. *)
Theorem single_flight_by_guard :
  (forall evs : list event,
     fetches_in_flight (run evs initial)
     <= 1)
  /\ (forall evs : list event,
        let w := run evs initial in
        fetches_in_flight w = 1 ->
        loadCertificates w
        = {| ui := ui w;
             pending := pending w;
             issued := issued w;
             next_id := next_id w;
             toasts := toasts w;
             load_calls := load_calls w ++ [ReturnedAtGuard];
             outcomes := outcomes w |})
  /\ (forall (evs : list event) (n : nat)
             (reply : settled (list RawCertificate)),
        let w0 := run evs initial in
        fetches_in_flight w0 = 0 ->
        let id := next_id w0 in
        let w := run (repeat Call_loadCertificates (S n)
                    ++ [Settle_get id reply]) w0 in
        let first := length (load_calls w0) in
        fetches_issued w = S (fetches_issued w0)
        /\ fetches_in_flight w = 0
        /\ ui w
           = ui
               (run [Call_loadCertificates;
                                  Settle_get id reply] w0)
        /\ received w first
           = Some (fst (after_await promise reply
                          (ui (loadCertificates w0))))
        /\ (forall k : nat, first < k <= first + n ->
              nth_error (load_calls w) k
              = Some ReturnedAtGuard
              /\ received w k = None)).
Proof.
  split; [|split].
  - intros evs. destruct (reachable_consistent evs) as (Hn & _).
    rewrite Hn. destruct (loadingRef _); lia.
  - intros evs w H. apply loadCertificates_guarded.
    destruct (reachable_consistent evs) as (Hn & _). fold w in Hn.
    rewrite H in Hn. destruct (loadingRef _); [reflexivity|lia].
  - intros evs n reply w0 H id w first.
    pose proof (reachable_consistent evs) as C. fold w0 in C.
    assert (G : loadingRef (ui w0) = false).
    { destruct C as (Hn & _). rewrite H in Hn.
      destruct (loadingRef _); [lia|reflexivity]. }
    pose proof (burst_then_reply n reply w0 C G) as E. fold id w in E.
    pose proof (burst_then_reply 0 reply w0 C G) as E1. fold id in E1.
    simpl repeat in E1. simpl app in E1.
    destruct C as (Hn & Hl & Hp & Ho).
    split; [|split; [|split; [|split]]].
    + apply (fetches_issued_snoc w (issued w0)).
      rewrite E. reflexivity.
    + rewrite E. unfold fetches_in_flight.
      cbn [pending]. exact H.
    + rewrite E, E1. reflexivity.
    + unfold received. rewrite E.
      cbn [load_calls outcomes].
      rewrite <- app_assoc, nth_error_app2 by (unfold first; lia).
      unfold first. rewrite Nat.sub_diag. simpl nth_error. cbv iota.
      apply outcome_of_last. exact Ho.
    + intros k Hk.
      assert (N : nth_error (load_calls w) k
                  = Some ReturnedAtGuard).
      { rewrite E. cbn [load_calls].
        rewrite nth_error_app2 by (rewrite length_app; simpl; fold first; lia).
        apply nth_error_repeat. rewrite length_app. simpl. fold first. lia. }
      split; [exact N|]. unfold received. now rewrite N.
Qed.

Lemma single_flight_by_guard_witness :
  fetches_issued
    (run (repeat Call_loadCertificates 3
        ++ [Settle_get 0 (Fulfilled [])])
       initial)
  = 1.
Proof.
  apply (proj2 (proj2 single_flight_by_guard) [] 2 (Fulfilled [])).
  reflexivity.
Defined.

(** C10.  However the fetch settles (with a list, with a failure that is
    passed on, or with a failure that is reworded as a parse error), the
    resumed [promise] ends with [loading] and [loadingRef] both false.  So
    in every reachable world the settlement of the request in flight
    clears the guard and the next call of [loadCertificates] issues a
    request; and the guard is never set while no fetch is in flight. *)
Theorem finished_load_releases_guard :
  (forall (reply : settled (list RawCertificate))
          (st : State),
     let st' := snd (after_await promise reply st) in
     loadingRef st' = false /\ loading st' = false)
  /\ (forall (evs : list event) (id : nat)
             (reply : settled (list RawCertificate))
             (rest : list Request),
        let w := run evs initial in
        take_request id (pending w)
        = Some (get_certificates_cached, rest) ->
        let w' := settle_get id reply w in
        loadingRef (ui w') = false
        /\ loading (ui w') = false
        /\ fetches_in_flight w' = 0
        /\ Props.fetch_requested w' (loadCertificates w'))
  /\ (forall evs : list event,
        let w := run evs initial in
        fetches_in_flight w = 0 ->
        loadingRef (ui w) = false
        /\ loading (ui w) = false).
Proof.
  split; [|split].
  - intros reply st st'. subst st'.
    destruct (after_await_flags reply st) as [F1 F2]. now split.
  - intros evs id reply rest w T w'.
    pose proof (reachable_consistent evs) as C. fold w in C.
    pose proof (settle_get_consistent id reply w C) as C'. fold w' in C'.
    assert (G : loadingRef (ui w') = false).
    { unfold w'. rewrite (settle_get_found _ _ _ _ T).
      cbn [ui]. apply after_await_flags. }
    destruct C' as (Hn & Hl & _). rewrite G in Hn, Hl.
    repeat split; trivial.
    unfold Props.fetch_requested.
    apply (fetches_issued_snoc _ (issued w')).
    rewrite (loadCertificates_idle w' G). reflexivity.
  - intros evs w H.
    destruct (reachable_consistent evs) as (Hn & Hl & _). fold w in Hn, Hl.
    rewrite H in Hn. rewrite Hl.
    destruct (loadingRef _); [lia|now split].
Qed.

Lemma finished_load_releases_guard_witness :
  loadingRef
    (ui
       (settle_get 0 (Rejected (VString "Parse(machineId)"))
          (run [Call_loadCertificates]
             initial)))
  = false.
Proof.
  apply (proj1 (proj2 finished_load_releases_guard)
           [Call_loadCertificates] 0
           (Rejected (VString "Parse(machineId)")) []).
  reflexivity.
Defined.

End CertificatePage.

(* ===================================================================== *)
(** ** The page in front of the modelled backend *)
(* ===================================================================== *)

Section PageAndBackend.
Import Certificates.

Lemma serve_get (id : nat) (now : Z) (auth : System.Authority)
    (sys : System.System) (rest : list Request) :
  take_request id (pending (System.page sys))
  = Some (get_certificates_cached, rest) ->
  System.serve id now auth sys
  = let g := Backend.get false now (System.listCertificates auth)
               (System.cache sys) in
    {| System.page := settle_get id (fst (fst g)) (System.page sys);
       System.cache := snd (fst g);
       System.remote_fetches :=
         if snd g then S (System.remote_fetches sys)
         else System.remote_fetches sys |}.
Proof.
  intros T. unfold System.serve. rewrite T.
  destruct (Backend.get false now (System.listCertificates auth)
              (System.cache sys)) as [[reply cache'] fetched].
  reflexivity.
Qed.

Lemma serve_revoke (id : nat) (now : Z) (auth : System.Authority)
    (sys : System.System) (serial : string)
    (rest : list Request) :
  take_request id (pending (System.page sys))
  = Some (revoke_certificate serial, rest) ->
  System.serve id now auth sys
  = let r := Backend.revoke (System.revokeCertificate auth serial)
               (System.cache sys) in
    {| System.page := settle_revoke id (fst r) (System.page sys);
       System.cache := snd r;
       System.remote_fetches := System.remote_fetches sys |}.
Proof.
  intros T. unfold System.serve. rewrite T.
  destruct (Backend.revoke (System.revokeCertificate auth serial)
              (System.cache sys)) as [reply cache'].
  reflexivity.
Qed.

Lemma serve_consistent (id : nat) (now : Z) (auth : System.Authority)
    (sys : System.System) :
  Props.consistent (System.page sys) ->
  Props.consistent (System.page (System.serve id now auth sys)).
Proof.
  intros C.
  destruct (take_request id
              (pending (System.page sys)))
    as [[[|serial] rest]|] eqn:T.
  - rewrite (serve_get _ _ _ _ _ T). now apply settle_get_consistent.
  - rewrite (serve_revoke _ _ _ _ _ _ T). now apply settle_revoke_consistent.
  - unfold System.serve. now rewrite T.
Qed.

Lemma system_step_consistent (sys : System.System) (e : System.event) :
  Props.consistent (System.page sys) ->
  Props.consistent (System.page (System.step sys e)).
Proof.
  destruct e; simpl.
  - apply loadCertificates_consistent.
  - apply revokeCertificate_consistent.
  - apply serve_consistent.
Qed.

Lemma system_reachable_consistent (evs : list System.event) :
  Props.consistent (System.page (System.run evs System.initial)).
Proof.
  assert (G : forall sys, Props.consistent (System.page sys) ->
                Props.consistent (System.page (System.run evs sys))).
  { induction evs as [|e evs IH]; intros sys C; simpl; [exact C|].
    apply IH, system_step_consistent, C. }
  apply G, initial_consistent.
Qed.

(** The modelled cache: a fresh entry is a hit, anything else goes to the
    remote. *)
Lemma get_hit (now : Z)
    (remote : settled (list RawCertificate))
    (e : Backend.CacheEntry) :
  Backend.fresh now e = true ->
  Backend.get false now remote (Some e)
  = (Fulfilled (Backend.entry_certificates e), Some e, false).
Proof. intros F. unfold Backend.get. now rewrite F. Qed.

Lemma get_stale (now : Z)
    (remote : settled (list RawCertificate))
    (e : Backend.CacheEntry) :
  Backend.fresh now e = false ->
  fst (fst (Backend.get false now remote (Some e))) = remote
  /\ snd (Backend.get false now remote (Some e)) = true.
Proof.
  intros F. unfold Backend.get. rewrite F. destruct remote; now split.
Qed.


(** C7.  In the modelled cache an entry is fresh exactly when
    [now - timestamp] is below five minutes; an unforced [get] answers from
    a fresh entry without a remote call, and never answers from a stale
    one: it calls the remote and passes on what the remote says.  Through
    the page: a load at 0 s fetches remotely, a load at 200 s shows the
    cached list and makes no remote call (whatever the remote would have
    said), a load at 310 s fetches again and shows the new list. *)
Theorem cache_serves_only_fresh_entries :
  (forall (now : Z) (e : Backend.CacheEntry),
     Backend.fresh now e = true <-> (now - Backend.timestamp e < 5 * 60)%Z)
  /\ (forall (now : Z) (remote : settled (list RawCertificate))
             (e : Backend.CacheEntry),
        Backend.fresh now e = true ->
        Backend.get false now remote (Some e)
        = (Fulfilled (Backend.entry_certificates e), Some e, false))
  /\ (forall (now : Z) (remote : settled (list RawCertificate))
             (e : Backend.CacheEntry),
        Backend.fresh now e = false ->
        fst (fst (Backend.get false now remote (Some e))) = remote
        /\ snd (Backend.get false now remote (Some e)) = true)
  /\ (forall first later : list RawCertificate,
        let shown l := filter identified
                         (map validate l) in
        let s0 := System.load_at 0 (Props.listing first) System.initial in
        let s200 := System.load_at 200 (Props.listing later) s0 in
        let s310 := System.load_at 310 (Props.listing later) s200 in
        System.remote_fetches s0 = 1
        /\ certificates (ui (System.page s0))
           = shown first
        /\ System.remote_fetches s200 = 1
        /\ certificates (ui (System.page s200))
           = shown first
        /\ System.remote_fetches s310 = 2
        /\ certificates (ui (System.page s310))
           = shown later).
Proof.
  split; [|split; [|split]].
  - intros now e. unfold Backend.fresh, Backend.TTL. apply Z.ltb_lt.
  - apply get_hit.
  - apply get_stale.
  - intros first later shown s0 s200 s310. repeat split.
Qed.

Lemma cache_serves_only_fresh_entries_witness :
  Backend.get false 200 (Rejected (VString "unreachable"))
    (Some {| Backend.entry_certificates := []; Backend.timestamp := 0 |})
  = (Fulfilled [],
     Some {| Backend.entry_certificates := []; Backend.timestamp := 0 |},
     false)
  /\ snd (Backend.get false 310 (Rejected (VString "unreachable"))
            (Some {| Backend.entry_certificates := [];
                     Backend.timestamp := 0 |}))
     = true.
Proof.
  split.
  - apply (proj1 (proj2 cache_serves_only_fresh_entries)). reflexivity.
  - apply (proj1 (proj2 (proj2 cache_serves_only_fresh_entries))).
    reflexivity.
Defined.






(* ===================================================================== *)
(** ** Revoking a certificate that the remote refuses to revoke *)
(* ===================================================================== *)

Lemma take_request_fresh (id : nat) (l : list Request) :
  Forall (fun r => req_id r < id) l -> take_request id l = None.
Proof.
  induction l as [|r l IH]; intros F; [reflexivity|].
  inversion F as [|? ? Hr Fl]; subst. cbn [take_request].
  destruct (Nat.eqb_spec (req_id r) id) as [E|_]; [lia|].
  now rewrite (IH Fl).
Qed.

(** What one load shows and leaves in the cache depends only on what the
    page shows, on the cache and on the remote. *)
Lemma load_at_view (now : Z) (auth : System.Authority) (sys : System.System) :
  Props.consistent (System.page sys) ->
  let after := System.load_at now auth sys in
  let g := Backend.get false now (System.listCertificates auth)
             (System.cache sys) in
  (ui (System.page after), System.cache after, System.remote_fetches after)
  = if loadingRef (ui (System.page sys))
    then (ui (System.page sys), System.cache sys, System.remote_fetches sys)
    else (snd (after_await promise (fst (fst g))
                 {| certificates := certificates (ui (System.page sys));
                    loading := true; loadingRef := true |}),
          snd (fst g),
          if snd g then S (System.remote_fetches sys)
          else System.remote_fetches sys).
Proof.
  intros (Hn & Hl & Hp & Ho) after g. subst after g.
  unfold System.load_at. cbn [System.step]. unfold System.on_page.
  destruct (loadingRef (ui (System.page sys))) eqn:G.
  - rewrite (loadCertificates_guarded _ G).
    unfold System.serve. cbn [System.page pending].
    now rewrite (take_request_fresh _ _ Hp).
  - rewrite (loadCertificates_idle _ G).
    erewrite serve_get.
    2:{ cbn [System.page pending]. apply take_request_last. exact Hp. }
    cbn zeta. cbn [System.page System.cache System.remote_fetches].
    erewrite settle_get_found.
    2:{ cbn [pending]. apply take_request_last. exact Hp. }
    reflexivity.
Qed.

(** C6, as stated, fails.  The page shows one certificate and the remote
    refuses to revoke it with "403 Forbidden": the request is rejected
    with that error, yet the promise that the caller of
    [revokeCertificate] holds is not: it was fulfilled when the request
    was issued. *)
Lemma failed_revoke_does_not_reach_the_caller :
  outcome_of 1
    (outcomes
       (System.page
          (System.serve 1 10
             (Revocation.refusing [Props.listed_certificate]
                (VString "403 Forbidden"))
             (System.step
                (System.run Revocation.one_certificate_loaded System.initial)
                (System.Revoke "0A1B2C")))))
  = Some (Thrown (VString "403 Forbidden"))
  /\ ~ (fst (Revocation.revokeCertificate_async "0A1B2C"
               (System.page
                  (System.run Revocation.one_certificate_loaded
                     System.initial)))
        = Thrown (VString "403 Forbidden")).
Proof.
  split; [reflexivity|]. intros H. vm_compute in H. discriminate H.
Qed.

(** C6, amended.  In every reachable state, when the remote refuses a
    revocation with [e]: at the call nothing is removed from the
    certificates on display, and after the refusal the component state,
    the modelled backend cache, the requests in flight and the number of
    remote fetches are what they were before the call; no reload is
    requested and [loadCertificates] is not called, so a later load is
    answered exactly as if the revocation had never been tried.  The
    error does not reach the caller of [revokeCertificate], whose promise
    was fulfilled when the request was issued; the request's promise is
    rejected with [e] itself and the error toast shows it. *)
Theorem failed_revoke_changes_nothing :
  forall (evs : list System.event) (serial : string) (now : Z)
         (auth : System.Authority) (e : value),
    let sys := System.run evs System.initial in
    System.revokeCertificate auth serial = Rejected e ->
    let call := Revocation.revokeCertificate_async serial (System.page sys) in
    let sys' := System.serve (next_id (System.page sys)) now auth
                  (System.step sys (System.Revoke serial)) in
    fst call = Normal tt
    /\ System.page (System.step sys (System.Revoke serial)) = snd call
    /\ ui (snd call) = ui (System.page sys)
    /\ ui (System.page sys') = ui (System.page sys)
    /\ System.cache sys' = System.cache sys
    /\ System.remote_fetches sys' = System.remote_fetches sys
    /\ pending (System.page sys') = pending (System.page sys)
    /\ fetches_issued (System.page sys') = fetches_issued (System.page sys)
    /\ load_calls (System.page sys') = load_calls (System.page sys)
    /\ outcomes (System.page sys')
       = outcomes (System.page sys)
         ++ [(next_id (System.page sys), Thrown e)]
    /\ toasts (System.page sys')
       = toasts (System.page sys)
         ++ [ToastLoading "Revoking certificate...";
             ToastError ("Failed to revoke certificate: " ++ String_ e)%string]
    /\ (forall (now' : Z) (auth' : System.Authority),
          let later := System.load_at now' auth' sys in
          let later' := System.load_at now' auth' sys' in
          ui (System.page later') = ui (System.page later)
          /\ System.cache later' = System.cache later
          /\ System.remote_fetches later' = System.remote_fetches later).
Proof.
  intros evs serial now auth e sys R call sys'.
  pose proof (system_reachable_consistent evs) as C. fold sys in C.
  assert (C' : Props.consistent (System.page sys')).
  { unfold sys'. apply serve_consistent.
    cbn [System.step]. now apply revokeCertificate_consistent. }
  assert (T : take_request (next_id (System.page sys))
                (pending (System.page (System.step sys (System.Revoke serial))))
              = Some (revoke_certificate serial, pending (System.page sys))).
  { cbn [System.step System.on_page System.page revokeCertificate pending].
    apply take_request_last. now destruct C as (_ & _ & Hp & _). }
  assert (E : sys'
          = {| System.page :=
                 {| ui := ui (System.page sys);
                    pending := pending (System.page sys);
                    issued := issued (System.page sys)
                              ++ [revoke_certificate serial];
                    next_id := S (next_id (System.page sys));
                    toasts := (toasts (System.page sys)
                               ++ [ToastLoading "Revoking certificate..."])
                              ++ [ToastError
                                    ("Failed to revoke certificate: "
                                     ++ String_ e)%string];
                    load_calls := load_calls (System.page sys);
                    outcomes := outcomes (System.page sys)
                                ++ [(next_id (System.page sys), Thrown e)] |};
               System.cache := System.cache sys;
               System.remote_fetches := System.remote_fetches sys |}).
  { unfold sys'. rewrite (serve_revoke _ _ _ _ _ _ T).
    cbn [System.step System.on_page System.cache System.remote_fetches
         System.page].
    rewrite R. cbn zeta. cbn [Backend.revoke fst snd].
    unfold settle_revoke.
    cbn [System.step System.on_page System.page] in T. rewrite T.
    reflexivity. }
  split; [reflexivity|]. split; [reflexivity|]. split; [reflexivity|].
  assert (Eu : ui (System.page sys') = ui (System.page sys))
    by (rewrite E; reflexivity).
  assert (Ec : System.cache sys' = System.cache sys)
    by (rewrite E; reflexivity).
  assert (Ef : System.remote_fetches sys' = System.remote_fetches sys)
    by (rewrite E; reflexivity).
  split; [exact Eu|]. split; [exact Ec|]. split; [exact Ef|].
  split; [rewrite E; reflexivity|].
  split.
  { rewrite E. unfold fetches_issued. cbn [System.page issued].
    rewrite filter_app, length_app. cbn. lia. }
  split; [rewrite E; reflexivity|].
  split; [rewrite E; reflexivity|].
  split.
  { rewrite E. cbn [System.page toasts]. now rewrite <- app_assoc. }
  intros now' auth' later later'.
  pose proof (load_at_view now' auth' sys C) as V.
  pose proof (load_at_view now' auth' sys' C') as V'.
  cbn zeta in V, V'. fold later in V. fold later' in V'.
  rewrite Eu, Ec, Ef in V'. rewrite <- V in V'.
  injection V' as -> -> ->. repeat split.
Qed.

Lemma failed_revoke_changes_nothing_witness :
  certificates
    (ui (System.page
           (System.serve 1 10
              (Revocation.refusing [Props.listed_certificate]
                 (VString "403 Forbidden"))
              (System.step
                 (System.run Revocation.one_certificate_loaded System.initial)
                 (System.Revoke "0A1B2C")))))
  = [validate Props.listed_certificate]
  /\ System.cache
       (System.serve 1 10
          (Revocation.refusing [Props.listed_certificate]
             (VString "403 Forbidden"))
          (System.step
             (System.run Revocation.one_certificate_loaded System.initial)
             (System.Revoke "0A1B2C")))
     = Some {| Backend.entry_certificates := [Props.listed_certificate];
               Backend.timestamp := 0 |}.
Proof.
  pose proof (failed_revoke_changes_nothing
                Revocation.one_certificate_loaded "0A1B2C" 10
                (Revocation.refusing [Props.listed_certificate]
                   (VString "403 Forbidden"))
                (VString "403 Forbidden") eq_refl)
    as (_ & _ & _ & Hu & Hc & _).
  split.
  - exact (eq_trans (f_equal certificates Hu) eq_refl).
  - exact (eq_trans Hc eq_refl).
Defined.

End PageAndBackend.

(* ===================================================================== *)
(** ** The cleanup page *)
(* ===================================================================== *)

Section CleanupPage.
Import Cleanup.

Lemma cleanup_after_await_fulfilled (r : CleanupResult)
    (st : State) :
  after_await promise (Fulfilled r) st
  = (Normal r, {| loading := false; result := Some r |}).
Proof. reflexivity. Qed.

Lemma cleanup_after_await_rejected (e : value) (st : State) :
  after_await promise (Rejected e) st = (Thrown e, st).
Proof. reflexivity. Qed.

Lemma cleanup_take_request_last (id : nat) (l : list nat) :
  exists rest, take_request id (l ++ [id]) = Some rest.
Proof.
  induction l as [|x l [rest IH]]; simpl.
  - rewrite Nat.eqb_refl. now exists [].
  - destruct (Nat.eqb x id); [now exists (l ++ [id])|].
    rewrite IH. now exists (x :: rest).
Qed.

Lemma cleanup_take_request_length (id : nat) (l rest : list nat) :
  take_request id l = Some rest -> length l = S (length rest).
Proof.
  revert rest. induction l as [|x l IH]; intros rest H; simpl in H.
  - discriminate.
  - destruct (Nat.eqb x id).
    + now injection H as <-.
    + destruct (take_request id l) as [rest'|]; [|discriminate].
      injection H as <-. simpl. now rewrite (IH rest').
Qed.

(** A confirmed click on an idle page, and the reply to the request it
    issued. *)
Lemma confirmed_click_then_reply (reply : settled CleanupResult)
    (w : World) :
  loading (ui w) = false ->
  let w' := settle (next_id w) reply
              (performCleanup true w) in
  let r := after_await promise reply
             {| loading := true; result := None |} in
  ui w' = snd r
  /\ outcomes w' = outcomes w ++ [(next_id w, fst r)]
  /\ issued w' = S (issued w).
Proof.
  intros G. unfold performCleanup. rewrite G.
  cbn [negb]. unfold settle. cbn [pending].
  destruct (cleanup_take_request_last (next_id w) (pending w))
    as [rest ->].
  cbn [ui].
  change (snd (before_await promise (ui w)))
    with {| loading := true; result := None |}.
  destruct (after_await promise reply
              {| loading := true; result := None |}).
  repeat split.
Qed.

Lemma fold_record_certificate (l : list Backend.item_outcome)
    (r : CleanupResult) :
  fold_left Backend.record_certificate l r
  = {| certificatesRevoked := certificatesRevoked r + Props.completed l;
       appIdsDeleted := appIdsDeleted r;
       errors := errors r ++ Props.failures l |}.
Proof.
  revert r. induction l as [|[|d] l IH]; intros r; simpl.
  - destruct r. simpl. now rewrite Nat.add_0_r, app_nil_r.
  - rewrite IH. unfold Props.completed. simpl. f_equal. lia.
  - rewrite IH. unfold Props.completed. simpl. f_equal.
    now rewrite <- app_assoc.
Qed.

Lemma fold_record_appId (l : list Backend.item_outcome)
    (r : CleanupResult) :
  fold_left Backend.record_appId l r
  = {| certificatesRevoked := certificatesRevoked r;
       appIdsDeleted := appIdsDeleted r + Props.completed l;
       errors := errors r ++ Props.failures l |}.
Proof.
  revert r. induction l as [|[|d] l IH]; intros r; simpl.
  - destruct r. simpl. now rewrite Nat.add_0_r, app_nil_r.
  - rewrite IH. unfold Props.completed. simpl. f_equal. lia.
  - rewrite IH. unfold Props.completed. simpl. f_equal.
    now rewrite <- app_assoc.
Qed.

Lemma cleanup_all_tally (account : Backend.Account) :
  Backend.cleanup_all (Fulfilled account) = Fulfilled (Props.tally account).
Proof.
  unfold Backend.cleanup_all.
  now rewrite fold_record_certificate, fold_record_appId.
Qed.

(** Every sub-item either completed or left one description. *)
Lemma failures_completed (l : list Backend.item_outcome) :
  length (Props.failures l) + Props.completed l = length l.
Proof.
  unfold Props.completed.
  induction l as [|[|d] l IH]; simpl; lia.
Qed.

Lemma runCleanup_fulfilled (w : World) (account : Backend.Account) :
  loading (ui w) = false ->
  ui (System.runCleanup (Fulfilled account) w)
  = {| loading := false;
       result := Some (Props.tally account) |}
  /\ outcomes (System.runCleanup (Fulfilled account) w)
     = outcomes w
       ++ [(next_id w, Normal (Props.tally account))].
Proof.
  intros G. unfold System.runCleanup, System.serve_cleanup.
  rewrite cleanup_all_tally.
  destruct (confirmed_click_then_reply (Fulfilled (Props.tally account)) w G)
    as (Hu & Ho & _).
  rewrite Hu, Ho. split; reflexivity.
Qed.

Lemma runCleanup_rejected (w : World) (e : value) :
  loading (ui w) = false ->
  ui (System.runCleanup (Rejected e) w)
  = {| loading := true; result := None |}
  /\ outcomes (System.runCleanup (Rejected e) w)
     = outcomes w ++ [(next_id w, Thrown e)].
Proof.
  intros G. unfold System.runCleanup, System.serve_cleanup.
  destruct (confirmed_click_then_reply
              (Backend.cleanup_all (Rejected e)) w G) as (Hu & Ho & _).
  rewrite Hu, Ho. split; reflexivity.
Qed.

(** C4.  Against the modelled [cleanup_all]: when the authority can be
    reached, a confirmed cleanup never raises, whatever sub-items fail.
    Its promise is fulfilled with a result that the page stores, whose
    counts are the numbers of certificates and App IDs that completed and
    whose [errors] holds one description per failed sub-item, in order.
    With three of five certificates revoked the result reports 3 and two
    errors.  Only when the authority cannot be reached is the promise
    rejected, and then no result is stored. *)
Theorem partial_failure_still_yields_result :
  (forall (w : World) (account : Backend.Account),
     loading (ui w) = false ->
     let w' := System.runCleanup (Fulfilled account) w in
     let r := Props.tally account in
     outcomes w'
     = outcomes w ++ [(next_id w, Normal r)]
     /\ result (ui w') = Some r
     /\ loading (ui w') = false
     /\ certificatesRevoked r
        = Props.completed (Backend.certificate_outcomes account)
     /\ appIdsDeleted r
        = Props.completed (Backend.appId_outcomes account)
     /\ length (errors r)
          + certificatesRevoked r + appIdsDeleted r
        = length (Backend.certificate_outcomes account)
          + length (Backend.appId_outcomes account))
  /\ (forall (w : World) (e : value),
        loading (ui w) = false ->
        let w' := System.runCleanup (Rejected e) w in
        outcomes w'
        = outcomes w ++ [(next_id w, Thrown e)]
        /\ result (ui w') = None)
  /\ (forall (w : World) (d1 d2 : string),
        loading (ui w) = false ->
        let w' := System.runCleanup (Fulfilled (Props.three_of_five d1 d2)) w in
        exists r : CleanupResult,
          outcomes w'
          = outcomes w ++ [(next_id w, Normal r)]
          /\ result (ui w') = Some r
          /\ certificatesRevoked r = 3
          /\ errors r = [d1; d2]
          /\ length (errors r) = 2).
Proof.
  split; [|split].
  - intros w account G w' r.
    destruct (runCleanup_fulfilled w account G) as (Hu & Ho).
    fold w' r in Hu, Ho. rewrite Hu, Ho.
    repeat split.
    unfold r, Props.tally.
    cbn [errors certificatesRevoked appIdsDeleted].
    rewrite length_app.
    pose proof (failures_completed (Backend.certificate_outcomes account)).
    pose proof (failures_completed (Backend.appId_outcomes account)).
    lia.
  - intros w e G w'.
    destruct (runCleanup_rejected w e G) as (Hu & Ho).
    fold w' in Hu, Ho. rewrite Hu, Ho. split; reflexivity.
  - intros w d1 d2 G w'.
    destruct (runCleanup_fulfilled w (Props.three_of_five d1 d2) G)
      as (Hu & Ho).
    fold w' in Hu, Ho.
    exists (Props.tally (Props.three_of_five d1 d2)).
    rewrite Hu, Ho. repeat split.
Qed.

Lemma partial_failure_still_yields_result_witness :
  result
    (ui
       (System.runCleanup
          (Fulfilled (Props.three_of_five "certificate 2: timed out"
                        "certificate 4: not found"))
          initial))
  = Some {| certificatesRevoked := 3;
            appIdsDeleted := 0;
            errors := ["certificate 2: timed out";
                               "certificate 4: not found"] |}
  /\ result
       (ui
          (System.runCleanup (Rejected (VString "authority unreachable"))
             initial))
     = None.
Proof.
  split.
  - apply (proj1 partial_failure_still_yields_result initial
             (Props.three_of_five "certificate 2: timed out"
                "certificate 4: not found")).
    reflexivity.
  - apply (proj1 (proj2 partial_failure_still_yields_result) initial
             (VString "authority unreachable")).
    reflexivity.
Defined.

(** C8.  Against the modelled [cleanup_all]: a confirmed cleanup of an
    account that has no certificate and no App ID does not fail; its
    promise is fulfilled with zero certificates revoked, zero App IDs
    deleted and no errors, and the page stores that result.  Doing it a
    second time gives the same again. *)
Theorem cleanup_of_empty_account_reports_zero :
  forall w : World,
    loading (ui w) = false ->
    let w1 := System.runCleanup (Fulfilled Props.empty_account) w in
    let w2 := System.runCleanup (Fulfilled Props.empty_account) w1 in
    outcomes w1
    = outcomes w ++ [(next_id w, Normal Props.nothing_done)]
    /\ result (ui w1) = Some Props.nothing_done
    /\ loading (ui w1) = false
    /\ outcomes w2
       = outcomes w1
         ++ [(next_id w1, Normal Props.nothing_done)]
    /\ result (ui w2) = Some Props.nothing_done.
Proof.
  intros w G w1 w2.
  destruct (runCleanup_fulfilled w Props.empty_account G) as (Hu & Ho).
  fold w1 in Hu, Ho.
  assert (G1 : loading (ui w1) = false)
    by (rewrite Hu; reflexivity).
  destruct (runCleanup_fulfilled w1 Props.empty_account G1) as (Hu2 & Ho2).
  fold w2 in Hu2, Ho2.
  rewrite Hu, Hu2, Ho2, Ho. repeat split.
Qed.

Lemma cleanup_of_empty_account_reports_zero_witness :
  result
    (ui (System.runCleanup (Fulfilled Props.empty_account)
                   initial))
  = Some Props.nothing_done.
Proof.
  apply (cleanup_of_empty_account_reports_zero initial).
  reflexivity.
Defined.

Lemma cleanup_initial_consistent : Props.cleanup_consistent initial.
Proof. split; simpl; [congruence|lia]. Qed.

Lemma performCleanup_consistent (confirmed : bool) (w : World) :
  Props.cleanup_consistent w ->
  Props.cleanup_consistent (performCleanup confirmed w).
Proof.
  intros C. unfold performCleanup.
  destruct (loading (ui w)) eqn:G; [exact C|].
  destruct confirmed; simpl; [|exact C].
  destruct C as [Hp Hl].
  destruct (pending w) as [|x l] eqn:P.
  - split; simpl; [reflexivity|lia].
  - assert (x :: l <> []) as N by discriminate.
    specialize (Hp N). congruence.
Qed.

Lemma settle_consistent (id : nat) (reply : settled CleanupResult)
    (w : World) :
  Props.cleanup_consistent w ->
  Props.cleanup_consistent (settle id reply w).
Proof.
  intros C. unfold settle.
  destruct (take_request id (pending w)) as [rest|] eqn:T;
    [|exact C].
  destruct C as [Hp Hl].
  apply cleanup_take_request_length in T.
  assert (R : rest = []) by (destruct rest; [reflexivity|simpl in T; lia]).
  subst rest.
  destruct (after_await promise reply (ui w)).
  split; simpl; [congruence|lia].
Qed.

Lemma cleanup_reachable_consistent (evs : list event) :
  Props.cleanup_consistent (run evs initial).
Proof.
  assert (G : forall w, Props.cleanup_consistent w ->
                Props.cleanup_consistent (run evs w)).
  { induction evs as [|e evs IH]; intros w C; simpl; [exact C|].
    apply IH. destruct e; simpl.
    - now apply performCleanup_consistent.
    - now apply settle_consistent. }
  apply G, cleanup_initial_consistent.
Qed.

(** C9.  When the user declines the confirmation, or [loading] is set,
    [performCleanup] leaves the whole world as it is: no [cleanup_all]
    request is issued and the stored result and the loading flag are
    unchanged.  In every reachable world a cleanup that is in progress has
    [loading] set, so a click during it does nothing either.  Conversely,
    whenever [performCleanup] issues a request, the user has confirmed and
    no cleanup was loading. *)
Theorem declined_or_busy_cleanup_does_nothing :
  (forall (w : World) (confirmed : bool),
     confirmed = false \/ loading (ui w) = true ->
     performCleanup confirmed w = w)
  /\ (forall (evs : list event) (confirmed : bool),
        let w := run evs initial in
        pending w <> [] ->
        performCleanup confirmed w = w)
  /\ (forall (w : World) (confirmed : bool),
        issued (performCleanup confirmed w)
        <> issued w ->
        confirmed = true /\ loading (ui w) = false).
Proof.
  split; [|split].
  - intros w confirmed [H|H]; unfold performCleanup.
    + subst confirmed. now destruct (loading (ui w)).
    + now rewrite H.
  - intros evs confirmed w P.
    destruct (cleanup_reachable_consistent evs) as [Hp _]. fold w in Hp.
    unfold performCleanup. now rewrite (Hp P).
  - intros w confirmed H. unfold performCleanup in H.
    destruct (loading (ui w)); [now elim H|].
    destruct confirmed; [now split|now elim H].
Qed.

Lemma declined_or_busy_cleanup_does_nothing_witness :
  performCleanup false initial = initial
  /\ performCleanup true
       (run [Click true] initial)
     = run [Click true] initial.
Proof.
  split.
  - apply (proj1 declined_or_busy_cleanup_does_nothing initial false).
    left. reflexivity.
  - apply (proj1 (proj2 declined_or_busy_cleanup_does_nothing)
             [Click true] true).
    discriminate.
Defined.

End CleanupPage.

(* ===================================================================== *)
(** ** The certificate page as the user sees it *)
(* ===================================================================== *)

Section CertificatePageInUse.
Import Certificates CertificatesView.
Local Open Scope nat_scope.

(** X1.  The "Refresh" button is disabled, and an empty page says that it is
    loading, exactly while a fetch is in flight: in every reachable world
    [loading] is set if and only if one [get_certificates_cached] request
    is pending.  So a click on the enabled button never stops at the
    guard: it always issues a request. *)
Theorem refresh_is_disabled_exactly_while_fetching :
  forall evs : list event,
    let w := run evs initial in
    (refresh_disabled (render (ui w)) = true <-> fetches_in_flight w = 1)
    /\ (body (render (ui w)) = Message "Loading certificates..."
        <-> certificates (ui w) = [] /\ fetches_in_flight w = 1)
    /\ (body (render (ui w)) = Message "No certificates found."
        <-> certificates (ui w) = [] /\ fetches_in_flight w = 0)
    /\ (refresh_disabled (render (ui w)) = false ->
        fetches_issued (act w ClickRefresh) = S (fetches_issued w)
        /\ fetches_in_flight (act w ClickRefresh) = 1).
Proof.
  intros evs w.
  pose proof (reachable_consistent evs) as C. fold w in C.
  destruct C as (Hn & Hl & Hp & Ho).
  assert (V : (refresh_disabled (render (ui w)) = true
               <-> fetches_in_flight w = 1)
              /\ (body (render (ui w)) = Message "Loading certificates..."
                  <-> certificates (ui w) = [] /\ fetches_in_flight w = 1)
              /\ (body (render (ui w)) = Message "No certificates found."
                  <-> certificates (ui w) = [] /\ fetches_in_flight w = 0)).
  { unfold render. cbn [refresh_disabled body]. rewrite Hl, Hn.
    destruct (certificates (ui w)) as [|c l];
      destruct (loadingRef (ui w)); cbn [length Nat.eqb];
      (split; [|split]); split;
      try (intros [? ?]); try intros ?;
      try discriminate; try lia; try reflexivity;
      try (split; [reflexivity|lia]); try (split; reflexivity). }
  destruct V as (V1 & V2 & V3).
  split; [exact V1|]. split; [exact V2|]. split; [exact V3|].
  intros E. cbn [act]. rewrite E.
  assert (G : loadingRef (ui w) = false).
  { rewrite <- Hl. exact E. }
  rewrite (loadCertificates_idle w G). split.
  - apply (fetches_issued_snoc _ (issued w)). reflexivity.
  - unfold fetches_in_flight in *. cbn [pending].
    rewrite filter_is_get_snoc, Hn, G. reflexivity.
Qed.

Lemma refresh_is_disabled_exactly_while_fetching_witness :
  refresh_disabled (render (ui (run [Call_loadCertificates] initial))) = true
  /\ fetches_issued (act (run [] initial) ClickRefresh) = 1.
Proof.
  split.
  - apply (proj1 (refresh_is_disabled_exactly_while_fetching
                    [Call_loadCertificates])).
    reflexivity.
  - apply (proj2 (proj2 (proj2 (refresh_is_disabled_exactly_while_fetching
                                  [])))).
    reflexivity.
Defined.

(** The toast for a reworded parse error shows the whole detailed message,
    which ends with the original text. *)
Lemma parse_error_toast_text (e : value) :
  load_error_text (VError (detailedError (String_ e)))
  = ("Error: " ++ detailedError (String_ e))%string
  /\ ends_with ("Error: " ++ detailedError (String_ e)) (String_ e).
Proof.
  split.
  - unfold load_error_text.
    assert (E : String_ (VError (detailedError (String_ e)))
                = ("Error: " ++ detailedError (String_ e))%string)
      by reflexivity.
    rewrite E.
    assert (I : includes ("Error: " ++ detailedError (String_ e)) nl = true).
    { rewrite detailedError_preamble, <- append_assoc.
      apply includes_append_r. vm_compute. reflexivity. }
    now rewrite I.
  - exists ("Error: " ++ detailedError EmptyString)%string.
    rewrite append_assoc. f_equal.
Qed.

(** X2.  A failed load never empties the table: whatever the error, the
    certificates on display stay as they were, both flags are cleared,
    and the error toast ends with the text of the original error. *)
Theorem failed_load_keeps_the_list :
  forall (w : World) (id : nat) (e : value) (rest : list Request),
    take_request id (pending w) = Some (get_certificates_cached, rest) ->
    let w' := settle_get id (Rejected e) w in
    certificates (ui w') = certificates (ui w)
    /\ loading (ui w') = false
    /\ exists text : string,
         toasts w' = toasts w ++ [ToastError text]
         /\ ends_with text (String_ e).
Proof.
  intros w id e rest T w'. subst w'.
  rewrite (settle_get_found _ _ _ _ T), after_await_rejected.
  cbn zeta. cbn [ui toasts snd fst certificates loading].
  split; [reflexivity|]. split; [reflexivity|].
  destruct (mentions_machineId (String_ e)).
  - exists (load_error_text (VError (detailedError (String_ e)))).
    split; [reflexivity|].
    destruct (parse_error_toast_text e) as [E1 E2].
    rewrite E1. exact E2.
  - exists (load_error_text e). split; [reflexivity|].
    unfold load_error_text.
    destruct (includes (String_ e) nl).
    + exists EmptyString. reflexivity.
    + eexists. reflexivity.
Qed.

Lemma failed_load_keeps_the_list_witness :
  certificates
    (ui (settle_get 1 (Rejected (VString "connection refused"))
           (run [Call_loadCertificates;
                 Settle_get 0 (Fulfilled [Props.listed_certificate]);
                 Call_loadCertificates] initial)))
  = [validate Props.listed_certificate].
Proof.
  apply (failed_load_keeps_the_list
           (run [Call_loadCertificates;
                 Settle_get 0 (Fulfilled [Props.listed_certificate]);
                 Call_loadCertificates] initial)
           1 (VString "connection refused") []).
  reflexivity.
Defined.

(** *** Validation of entries that are already valid *)

Lemma validate_as_raw (cert : Certificate) :
  nonEmpty (name cert) = true -> validate (as_raw cert) = cert.
Proof.
  intros H. destruct cert as [n i sn mn mi]. unfold validate, as_raw.
  cbn [raw_name raw_certificateId raw_serialNumber raw_machineName
       raw_machineId name certificateId serialNumber machineName machineId]
    in *.
  destruct n; [discriminate|].
  destruct i, sn, mn, mi; reflexivity.
Qed.

Lemma well_formed_parts (cert : Certificate) :
  well_formed cert = true ->
  nonEmpty (name cert) = true /\ identified cert = true.
Proof.
  unfold well_formed, identified. intros H.
  apply andb_true_iff in H. destruct H as [H Hs].
  apply andb_true_iff in H. destruct H as [Hn Hi].
  now rewrite Hn, Hi, Hs.
Qed.

Lemma shown_as_raw (certs : list Certificate) :
  forallb well_formed certs = true ->
  filter identified (map validate (map as_raw certs)) = certs.
Proof.
  induction certs as [|cert certs IH]; intros H; [reflexivity|].
  cbn [forallb] in H. apply andb_true_iff in H. destruct H as [Hc Hr].
  destruct (well_formed_parts cert Hc) as [Hn Hi].
  cbn [map filter]. rewrite (validate_as_raw cert Hn), Hi.
  now rewrite (IH Hr).
Qed.

Lemma validate_well_formed (cert : RawCertificate) :
  identified (validate cert) = true -> well_formed (validate cert) = true.
Proof.
  intros H. unfold well_formed. unfold identified in H.
  apply andb_true_iff in H. destruct H as [Hi Hs]. rewrite Hi, Hs.
  assert (Hn : nonEmpty (name (validate cert)) = true).
  { rewrite validate_name. destruct (raw_name cert) as [[|? ?]|]; reflexivity. }
  now rewrite Hn.
Qed.

Lemma shown_well_formed (raw : list RawCertificate) :
  forallb well_formed (filter identified (map validate raw)) = true.
Proof.
  apply forallb_forall. intros c Hc.
  apply filter_In in Hc. destruct Hc as [Hin Hid].
  apply in_map_iff in Hin. destruct Hin as (r & <- & _).
  now apply validate_well_formed.
Qed.

(** X3.  Validation leaves valid data alone: a list of certificates whose
    name, [certificateId] and [serialNumber] are not empty is stored
    exactly as it was received, nothing dropped, nothing reordered and no
    field changed; and whatever a load has stored would be stored
    unchanged if it were loaded again. *)
Theorem valid_entries_are_stored_unchanged :
  (forall (certs : list Certificate) (st : State),
     forallb well_formed certs = true ->
     let r := after_await promise (Fulfilled (map as_raw certs)) st in
     fst r = Normal tt /\ certificates (snd r) = certs)
  /\ (forall (raw : list RawCertificate) (st st' : State),
        let shown :=
          certificates (snd (after_await promise (Fulfilled raw) st)) in
        forallb well_formed shown = true
        /\ certificates
             (snd (after_await promise (Fulfilled (map as_raw shown)) st'))
           = shown).
Proof.
  split.
  - intros certs st H r. subst r. rewrite after_await_fulfilled.
    split; [reflexivity|]. cbn [snd certificates]. now apply shown_as_raw.
  - intros raw st st' shown. subst shown.
    rewrite !after_await_fulfilled. cbn [snd certificates].
    split; [apply shown_well_formed|].
    apply shown_as_raw, shown_well_formed.
Qed.

Lemma valid_entries_are_stored_unchanged_witness :
  certificates
    (snd (after_await promise
            (Fulfilled
               [as_raw {| name := "iPhone Developer"; certificateId := "C1";
                          serialNumber := "0A1B2C";
                          machineName := EmptyString;
                          machineId := EmptyString |}])
            (ui initial)))
  = [{| name := "iPhone Developer"; certificateId := "C1";
        serialNumber := "0A1B2C"; machineName := EmptyString;
        machineId := EmptyString |}].
Proof.
  apply (proj1 valid_entries_are_stored_unchanged
           [{| name := "iPhone Developer"; certificateId := "C1";
               serialNumber := "0A1B2C"; machineName := EmptyString;
               machineId := EmptyString |}]
           (ui initial)).
  reflexivity.
Defined.

(** *** The table *)

Lemma nth_rows_from (total k : nat) (certs : list Certificate) (i : nat) :
  nth_error (rows_from total k certs) i
  = option_map (fun c => row total c (k + i)) (nth_error certs i).
Proof.
  revert k i. induction certs as [|c certs IH]; intros k i.
  - destruct i; reflexivity.
  - destruct i as [|i]; cbn [rows_from nth_error option_map].
    + now rewrite Nat.add_0_r.
    + rewrite IH. now rewrite Nat.add_succ_comm.
Qed.

Lemma rows_from_keys (total k : nat) (certs : list Certificate) :
  map key (rows_from total k certs) = map certificateId certs
  /\ map revoke_serialNumber (rows_from total k certs)
     = map serialNumber certs
  /\ map cell_serialNumber (rows_from total k certs)
     = map serialNumber certs
  /\ length (rows_from total k certs) = length certs.
Proof.
  revert k. induction certs as [|c certs IH]; intros k.
  - repeat split.
  - destruct (IH (S k)) as (Hk & Hs & Hc & Hl). cbn [rows_from map length].
    now rewrite Hk, Hs, Hc, Hl.
Qed.

Lemma rows_of_table (st : State) :
  certificates st <> [] ->
  body (render st) = Table (rows_of st)
  /\ rows_of st = rows_from (length (certificates st)) 0 (certificates st).
Proof.
  intros N. unfold rows_of, render. cbn [body].
  destruct (certificates st) as [|c certs] eqn:E; [now elim N|].
  split; reflexivity.
Qed.

Lemma rows_of_empty (st : State) :
  certificates st = [] ->
  rows_of st = [] /\ exists text : string, body (render st) = Message text.
Proof.
  intros E. unfold rows_of, render. cbn [body]. rewrite E. cbn.
  split; [reflexivity|]. eexists. reflexivity.
Qed.

(** X4.  What the component returns for a state: no table but a message
    when there is no certificate, and otherwise one row element per
    certificate, in the order of the list.  Position by position the row
    keys are the [certificateId]s and the serial numbers shown and
    requested by the "Revoke" cells are the [serialNumber]s; the last
    element, and no other, carries the class [cert-item-last].  The keys
    are distinct exactly when the [certificateId]s are, and a load does
    not make them so: two entries with the same identifiers are both
    stored and give two row elements with the same key. *)
Theorem table_has_one_row_per_certificate :
  (forall st : State,
     certificates st = [] ->
     rows_of st = [] /\ exists text : string, body (render st) = Message text)
  /\ (forall st : State,
        certificates st <> [] ->
        body (render st) = Table (rows_of st)
        /\ map key (rows_of st) = map certificateId (certificates st)
        /\ map cell_serialNumber (rows_of st)
           = map serialNumber (certificates st)
        /\ map revoke_serialNumber (rows_of st)
           = map serialNumber (certificates st)
        /\ (forall (i : nat) (r : Row),
              nth_error (rows_of st) i = Some r ->
              className r
              = if i =? length (rows_of st) - 1
                then "certificate-item cert-item-last"
                else "certificate-item")
        /\ (NoDup (map key (rows_of st))
            <-> NoDup (map certificateId (certificates st))))
  /\ (forall (cert : RawCertificate) (st : State),
        Props.has_required_fields cert = true ->
        map key
          (rows_of (snd (after_await promise (Fulfilled [cert; cert]) st)))
        = [certificateId (validate cert); certificateId (validate cert)]).
Proof.
  split; [exact rows_of_empty|]. split.
  - intros st N. destruct (rows_of_table st N) as [Hb Hr].
    destruct (rows_from_keys (length (certificates st)) 0 (certificates st))
      as (Hk & Hs & Hc & Hl).
    rewrite <- Hr in Hk, Hs, Hc, Hl.
    split; [exact Hb|]. split; [exact Hk|]. split; [exact Hc|].
    split; [exact Hs|]. split.
    + intros i r Hi. rewrite Hl. rewrite Hr, nth_rows_from in Hi.
      destruct (nth_error (certificates st) i) as [c'|]; [|discriminate].
      cbn [option_map] in Hi. injection Hi as <-.
      cbn [row className Nat.add].
      destruct (i =? length (certificates st) - 1); reflexivity.
    + now rewrite Hk.
  - intros cert st H. rewrite after_await_fulfilled. cbn [snd].
    cbn [map filter]. rewrite identified_validate, H. reflexivity.
Qed.

Lemma table_has_one_row_per_certificate_witness :
  map className
    (rows_of {| certificates :=
                  [{| name := "iPhone Developer"; certificateId := "C1";
                      serialNumber := "0A1B2C"; machineName := "MacBook";
                      machineId := "7F3A" |};
                   {| name := "iPhone Developer"; certificateId := "C2";
                      serialNumber := "0D4E5F"; machineName := "iMac";
                      machineId := EmptyString |}];
                loading := false; loadingRef := false |})
  = ["certificate-item"; "certificate-item cert-item-last"]
  /\ map key
       (rows_of {| certificates :=
                     [{| name := "iPhone Developer"; certificateId := "C1";
                         serialNumber := "0A1B2C"; machineName := "MacBook";
                         machineId := "7F3A" |};
                      {| name := "iPhone Developer"; certificateId := "C2";
                         serialNumber := "0D4E5F"; machineName := "iMac";
                         machineId := EmptyString |}];
                   loading := false; loadingRef := false |})
     = ["C1"; "C2"].
Proof.
  destruct (proj1 (proj2 table_has_one_row_per_certificate)
              {| certificates :=
                   [{| name := "iPhone Developer"; certificateId := "C1";
                       serialNumber := "0A1B2C"; machineName := "MacBook";
                       machineId := "7F3A" |};
                    {| name := "iPhone Developer"; certificateId := "C2";
                       serialNumber := "0D4E5F"; machineName := "iMac";
                       machineId := EmptyString |}];
                 loading := false; loadingRef := false |})
    as (_ & Hk & _).
  - discriminate.
  - split; [reflexivity|exact Hk].
Defined.

(** *** Revoking from the table *)

Lemma revoked_serials_app (l l' : list command) :
  revoked_serials (l ++ l') = revoked_serials l ++ revoked_serials l'.
Proof.
  induction l as [|[|s] l IH]; cbn [app revoked_serials];
    [reflexivity | exact IH | now rewrite IH].
Qed.

Lemma listing_valid_same (w w' : World) :
  certificates (ui w') = certificates (ui w) ->
  revoked_serials (issued w') = revoked_serials (issued w) ->
  listing_valid w -> listing_valid w'.
Proof. unfold listing_valid. intros -> ->. trivial. Qed.

Lemma loadCertificates_listing (w : World) :
  listing_valid w -> listing_valid (loadCertificates w).
Proof.
  apply listing_valid_same; unfold loadCertificates;
    destruct (loadingRef (ui w)); cbn [ui issued]; try reflexivity.
  rewrite revoked_serials_app. cbn. apply app_nil_r.
Qed.

Lemma settle_get_listing (id : nat) (reply : settled (list RawCertificate))
    (w : World) :
  listing_valid w -> listing_valid (settle_get id reply w).
Proof.
  intros V.
  destruct (take_request id (pending w)) as [[[|serial] rest]|] eqn:T.
  - rewrite (settle_get_found _ _ _ _ T). destruct reply as [raw|e].
    + rewrite after_await_fulfilled. destruct V as [_ Vs].
      split; cbn [ui issued snd certificates]; [|exact Vs].
      apply Forall_forall. intros c Hc.
      pose proof (shown_well_formed raw) as W.
      rewrite forallb_forall in W. now apply W.
    + rewrite after_await_rejected.
      revert V. apply listing_valid_same; reflexivity.
  - unfold settle_get. now rewrite T.
  - unfold settle_get. now rewrite T.
Qed.

Lemma settle_revoke_listing (id : nat) (reply : settled unit) (w : World) :
  listing_valid w -> listing_valid (settle_revoke id reply w).
Proof.
  intros V. unfold settle_revoke.
  destruct (take_request id (pending w)) as [[[|serial] rest]|]; trivial.
  destruct reply as [u|e].
  - set (w0 := {| ui := ui w; pending := rest; issued := issued w;
                  next_id := next_id w; toasts := toasts w;
                  load_calls := load_calls w; outcomes := outcomes w |}).
    assert (V0 : listing_valid w0)
      by (revert V; apply listing_valid_same; reflexivity).
    apply loadCertificates_listing in V0.
    revert V0. apply listing_valid_same; reflexivity.
  - revert V. apply listing_valid_same; reflexivity.
Qed.

Lemma act_listing (w : World) (g : gesture) :
  match g with
  | ClickRevoke r => revoke_serialNumber r <> EmptyString
  | _ => True
  end ->
  listing_valid w -> listing_valid (act w g).
Proof.
  intros A V. destruct g as [| |r|id reply|id reply]; cbn [act].
  - now apply loadCertificates_listing.
  - destruct (refresh_disabled (render (ui w))); [exact V|].
    now apply loadCertificates_listing.
  - destruct V as [Vc Vs]. split; cbn [revokeCertificate ui issued];
      [exact Vc|].
    rewrite revoked_serials_app. apply Forall_app. split; [exact Vs|].
    constructor; [exact A|constructor].
  - now apply settle_get_listing.
  - now apply settle_revoke_listing.
Qed.

Lemma rows_from_valid (total k : nat) (certs : list Certificate) :
  Forall (fun c => well_formed c = true) certs ->
  Forall row_valid (rows_from total k certs).
Proof.
  revert k. induction certs as [|c certs IH]; intros k F; [constructor|].
  inversion F as [|? ? Hc Fr]; subst. cbn [rows_from].
  constructor; [|now apply IH].
  split; [reflexivity|]. cbn [row revoke_serialNumber].
  destruct (well_formed_parts c Hc) as [_ Hid].
  unfold identified in Hid. apply andb_true_iff in Hid.
  destruct Hid as [_ Hs]. intros E. rewrite E in Hs. discriminate Hs.
Qed.

Lemma rows_of_valid (st : State) :
  Forall (fun c => well_formed c = true) (certificates st) ->
  Forall row_valid (rows_of st).
Proof.
  intros F. destruct (certificates st) as [|c certs] eqn:E.
  - destruct (rows_of_empty st E) as [-> _]. constructor.
  - assert (N : certificates st <> []) by (rewrite E; discriminate).
    destruct (rows_of_table st N) as [_ ->].
    apply rows_from_valid. now rewrite E.
Qed.

Lemma row_eqb_serial (r r' : Row) :
  row_eqb r r' = true -> revoke_serialNumber r = revoke_serialNumber r'.
Proof.
  unfold row_eqb. intros H. apply andb_true_iff in H.
  destruct H as [_ H]. now apply String.eqb_eq.
Qed.

Lemma on_screen_valid (s : Screen) (g : gesture) :
  listing_valid (world s) /\ Forall row_valid (returned s)
  /\ incl (rows_of (ui (world s))) (returned s) ->
  listing_valid (world (on_screen s g))
  /\ Forall row_valid (returned (on_screen s g))
  /\ incl (rows_of (ui (world (on_screen s g)))) (returned (on_screen s g)).
Proof.
  intros (V & R & I). unfold on_screen.
  destruct (clickable s g) eqn:K; [|split; [exact V|split; [exact R|exact I]]].
  cbn [world returned].
  assert (V' : listing_valid (act (world s) g)).
  { apply act_listing; [|exact V]. destruct g as [| |r| |]; trivial.
    cbn [clickable] in K. apply existsb_exists in K.
    destruct K as (r' & Hin & He). rewrite (row_eqb_serial _ _ He).
    rewrite Forall_forall in R. exact (proj2 (R _ Hin)). }
  split; [exact V'|]. split.
  - apply Forall_app. split; [exact R|].
    apply rows_of_valid. exact (proj1 V').
  - apply incl_appr, incl_refl.
Qed.

(** X5.  However the page is used (mounting, clicks on "Refresh", replies
    in any order, and clicks on the "Revoke" cell of any row element that
    the component has returned so far, which covers a row that React has
    left on screen from an earlier render): every certificate in the
    state has a name, a [certificateId] and a [serialNumber]; every row
    element returned, the current ones among them, requests on "Revoke"
    the serial number that it shows, and that number is not empty; so no
    [revoke_certificate] request is ever sent for an empty serial number.
    A click on "Revoke" requests the serial number of the clicked row and
    changes nothing that is displayed; a row that was never returned
    cannot be clicked. *)
Theorem revocations_name_certificates_on_display :
  (forall gs : list gesture,
     let s := use gs mounted in
     Forall (fun c => well_formed c = true) (certificates (ui (world s)))
     /\ Forall row_valid (returned s)
     /\ incl (rows_of (ui (world s))) (returned s)
     /\ Forall (fun x => x <> EmptyString)
          (revoked_serials (issued (world s))))
  /\ (forall (w : World) (r : Row),
        issued (act w (ClickRevoke r))
        = issued w ++ [revoke_certificate (revoke_serialNumber r)]
        /\ ui (act w (ClickRevoke r)) = ui w)
  /\ (forall (s : Screen) (r : Row),
        existsb (row_eqb r) (returned s) = false ->
        on_screen s (ClickRevoke r) = s).
Proof.
  split; [|split].
  - intros gs s. subst s.
    assert (G : forall s0,
               listing_valid (world s0) /\ Forall row_valid (returned s0)
               /\ incl (rows_of (ui (world s0))) (returned s0) ->
               listing_valid (world (use gs s0))
               /\ Forall row_valid (returned (use gs s0))
               /\ incl (rows_of (ui (world (use gs s0))))
                    (returned (use gs s0))).
    { induction gs as [|g gs IH]; intros s0 H; [exact H|].
      apply IH, on_screen_valid, H. }
    destruct (G mounted) as ([Vc Vs] & R & I).
    + split; [split; constructor|]. split; [constructor|]. apply incl_refl.
    + repeat split; trivial.
  - intros w r. split; reflexivity.
  - intros s r H. unfold on_screen. cbn [clickable]. now rewrite H.
Qed.

Lemma revocations_name_certificates_on_display_witness :
  on_screen mounted
    (ClickRevoke (row 1 (validate Props.listed_certificate) 0))
  = mounted.
Proof.
  apply (proj2 (proj2 revocations_name_certificates_on_display)).
  reflexivity.
Defined.

(** *** The "Machine ID" column *)

Lemma trim_nonEmpty (s : string) :
  nonEmpty (trim s) = true -> nonEmpty s = true.
Proof. destruct s; [discriminate|reflexivity]. Qed.

(** X6.  The "Machine ID" cell is never empty and never only white space: a
    certificate whose [machineId] is missing, empty or blank shows a dash,
    any other shows its [machineId] as it is. *)
Theorem machineId_cell_is_never_blank :
  (forall cert : Certificate, nonEmpty (trim (machineId_cell cert)) = true)
  /\ (forall raw : RawCertificate,
        raw_machineId raw = None -> machineId_cell (validate raw) = "—")
  /\ (forall cert : Certificate,
        trim (machineId cert) = EmptyString -> machineId_cell cert = "—")
  /\ (forall cert : Certificate,
        trim (machineId cert) <> EmptyString ->
        machineId_cell cert = machineId cert).
Proof.
  split; [|split; [|split]].
  - intros cert. unfold machineId_cell.
    destruct (nonEmpty (machineId cert)); cbn [andb]; [|reflexivity].
    destruct (nonEmpty (trim (machineId cert))) eqn:T; [exact T|reflexivity].
  - intros raw H. unfold machineId_cell, validate. cbn [machineId].
    rewrite H. reflexivity.
  - intros cert H. unfold machineId_cell. rewrite H.
    cbn [nonEmpty]. now rewrite andb_false_r.
  - intros cert H. unfold machineId_cell.
    assert (T : nonEmpty (trim (machineId cert)) = true)
      by (destruct (trim (machineId cert)); [now elim H|reflexivity]).
    now rewrite T, (trim_nonEmpty _ T).
Qed.

Lemma machineId_cell_is_never_blank_witness :
  machineId_cell (validate Props.listed_certificate) = "—"
  /\ machineId_cell
       {| name := "iPhone Developer"; certificateId := "C1";
          serialNumber := "0A1B2C"; machineName := "MacBook";
          machineId := "   " |}
     = "—"
  /\ machineId_cell
       {| name := "iPhone Developer"; certificateId := "C1";
          serialNumber := "0A1B2C"; machineName := "MacBook";
          machineId := " 7F3A " |}
     = " 7F3A ".
Proof.
  split; [|split].
  - apply (proj1 (proj2 machineId_cell_is_never_blank)). reflexivity.
  - apply (proj1 (proj2 (proj2 machineId_cell_is_never_blank))). reflexivity.
  - apply (proj2 (proj2 (proj2 machineId_cell_is_never_blank))
             {| name := "iPhone Developer"; certificateId := "C1";
                serialNumber := "0A1B2C"; machineName := "MacBook";
                machineId := " 7F3A " |}).
    discriminate.
Defined.

End CertificatePageInUse.

(* ===================================================================== *)
(** ** The cleanup page as the user sees it *)
(* ===================================================================== *)

Section CleanupPageInUse.
Import Cleanup CleanupView.

Lemma cleanup_take_request_found (id : nat) (l rest : list nat) :
  length l <= 1 -> take_request id l = Some rest -> l = [id] /\ rest = [].
Proof.
  intros L T. destruct l as [|x [|y l]]; simpl in L; try lia.
  - discriminate T.
  - simpl in T. destruct (Nat.eqb_spec x id) as [->|_]; [|discriminate T].
    injection T as <-. now split.
Qed.

Lemma step_display_consistent (w : World) (e : event) :
  Props.cleanup_consistent w -> display_consistent w ->
  display_consistent (step w e).
Proof.
  intros [Cp Cl] D. destruct e as [confirmed|id reply]; cbn [step].
  - unfold performCleanup.
    destruct (loading (ui w)) eqn:G; [exact D|].
    destruct confirmed; cbn [negb]; [|exact D].
    split; cbn [ui]; [reflexivity|]. intros r H. discriminate H.
  - unfold settle.
    destruct (take_request id (pending w)) as [rest|] eqn:T; [|exact D].
    destruct D as [Dl Dr].
    destruct (cleanup_take_request_found _ _ _ Cl T) as [P _].
    assert (N : pending w <> []) by (rewrite P; discriminate).
    pose proof (Dl (Cp N)) as R.
    destruct reply as [r|e].
    + rewrite cleanup_after_await_fulfilled. split; cbn [ui outcomes].
      * discriminate.
      * intros r' H. injection H as <-. now exists id, (outcomes w).
    + rewrite cleanup_after_await_rejected. split; cbn [ui outcomes].
      * exact Dl.
      * intros r' H. rewrite R in H. discriminate H.
Qed.

Lemma reachable_display_consistent (evs : list event) :
  Props.cleanup_consistent (run evs initial)
  /\ display_consistent (run evs initial).
Proof.
  assert (G : forall w,
             Props.cleanup_consistent w -> display_consistent w ->
             Props.cleanup_consistent (run evs w)
             /\ display_consistent (run evs w)).
  { induction evs as [|e evs IH]; intros w C D; [now split|].
    apply IH.
    - destruct e; cbn [step].
      + now apply performCleanup_consistent.
      + now apply settle_consistent.
    - now apply step_display_consistent. }
  apply G.
  - apply cleanup_initial_consistent.
  - split; cbn; [discriminate|]. intros r H. discriminate H.
Qed.

(** X7.  Whatever clicks and replies have happened: at most one [cleanup_all]
    request is in flight; while the button is disabled no result card is
    shown, so the result of an earlier cleanup is never on display during
    a new one; and a result card always shows the reply of the cleanup
    that settled last, its counts and its errors unchanged. *)
Theorem result_card_shows_the_latest_cleanup :
  forall evs : list event,
    let w := run evs initial in
    length (pending w) <= 1
    /\ (button_disabled (render (ui w)) = true -> panel (render (ui w)) = None)
    /\ (forall p : Panel,
          panel (render (ui w)) = Some p ->
          exists (id : nat) (r : CleanupResult)
                 (earlier : list (nat * completion CleanupResult)),
            outcomes w = earlier ++ [(id, Normal r)]
            /\ shown_certificatesRevoked p = certificatesRevoked r
            /\ shown_appIdsDeleted p = appIdsDeleted r
            /\ match error_section p with
               | Some sec =>
                   items sec = errors r /\ heading_count sec = length (errors r)
                   /\ errors r <> []
               | None => errors r = []
               end).
Proof.
  intros evs w.
  destruct (reachable_display_consistent evs) as ([_ Cl] & [Dl Dr]).
  fold w in Cl, Dl, Dr.
  split; [exact Cl|]. split.
  - unfold render. cbn [button_disabled panel]. intros H.
    now rewrite (Dl H).
  - intros p. unfold render. cbn [panel].
    destruct (result (ui w)) as [r|] eqn:R; [|discriminate].
    intros H. injection H as <-.
    destruct (Dr r eq_refl) as (id & earlier & E).
    exists id, r, earlier. cbn [shown_certificatesRevoked shown_appIdsDeleted
                                 error_section].
    repeat split; trivial.
    destruct (errors r) as [|x l]; cbn; [reflexivity|].
    repeat split. discriminate.
Qed.

Lemma result_card_shows_the_latest_cleanup_witness :
  panel (render (ui (run [Click true; Settle 0 (Fulfilled Props.nothing_done);
                          Click true] initial)))
  = None.
Proof.
  apply (proj1 (proj2 (result_card_shows_the_latest_cleanup
                         [Click true; Settle 0 (Fulfilled Props.nothing_done);
                          Click true]))).
  reflexivity.
Defined.

(** X8.  A cleanup that fails outright leaves the page unusable: [promise] has
    no [finally], so [loading] stays set.  From then on the button is
    disabled, no result card is shown, and no click or reply changes
    anything: no further [cleanup_all] request can be issued. *)
Theorem failed_cleanup_disables_the_page :
  forall (evs later : list event) (id : nat) (e : value),
    let w := run evs initial in
    take_request id (pending w) <> None ->
    let failed := settle id (Rejected e) w in
    run later failed = failed
    /\ button_disabled (render (ui failed)) = true
    /\ panel (render (ui failed)) = None
    /\ issued (run later failed) = issued w.
Proof.
  intros evs later id e w T failed.
  destruct (reachable_display_consistent evs) as ([Cp Cl] & [Dl _]).
  fold w in Cp, Cl, Dl.
  destruct (take_request id (pending w)) as [rest|] eqn:T'; [|now elim T].
  destruct (cleanup_take_request_found _ _ _ Cl T') as [P ->].
  assert (N : pending w <> []) by (rewrite P; discriminate).
  pose proof (Cp N) as L. pose proof (Dl L) as R.
  assert (F : failed
              = {| ui := ui w; pending := []; issued := issued w;
                   next_id := next_id w;
                   toasts := toasts w ++ [ToastError (error_text e)];
                   outcomes := outcomes w ++ [(id, Thrown e)] |}).
  { unfold failed, settle. rewrite T', cleanup_after_await_rejected.
    reflexivity. }
  assert (S : forall ev, step failed ev = failed).
  { intros [confirmed|id' reply]; cbn [step].
    - unfold performCleanup. rewrite F. cbn [ui]. now rewrite L.
    - unfold settle. rewrite F. reflexivity. }
  assert (Rn : run later failed = failed).
  { induction later as [|ev later IH]; [reflexivity|].
    cbn [run fold_left]. rewrite S. exact IH. }
  split; [exact Rn|]. rewrite Rn, F. unfold render.
  cbn [ui button_disabled panel issued]. rewrite L, R. repeat split.
Qed.

Lemma failed_cleanup_disables_the_page_witness :
  run [Click true; Click true]
    (settle 0 (Rejected (VString "authority unreachable"))
       (run [Click true] initial))
  = settle 0 (Rejected (VString "authority unreachable"))
      (run [Click true] initial).
Proof.
  apply (failed_cleanup_disables_the_page
           [Click true] [Click true; Click true] 0
           (VString "authority unreachable")).
  discriminate.
Defined.

End CleanupPageInUse.

(* ===================================================================== *)
(** ** The update check *)
(* ===================================================================== *)

Section UpdateCheck.
Import Updater.

Lemma not_called_in_logs (c : call) (lines : list line) :
  ~ In (Called c) (map Logged lines).
Proof.
  intros H. apply in_map_iff in H. destruct H as (l & E & _). discriminate E.
Qed.

(** What [checkForUpdates] does, answer by answer. *)
Lemma checkForUpdates_cases (env : Environment) :
  checkForUpdates env []
  = match check_reply env with
    | Rejected e => (Thrown e, [Called check])
    | Fulfilled None => (Normal tt, [Called check])
    | Fulfilled (Some u) =>
        let q := Called (ask ("A new version is available: " ++ version u
                              ++ ". Do you want to update?")%string) in
        match ask_reply env with
        | Rejected e => (Thrown e, [Called check; q])
        | Fulfilled false => (Normal tt, [Called check; q])
        | Fulfilled true =>
            let logs :=
              map Logged (snd (after_download (download_events env))) in
            match download_reply env with
            | Rejected e =>
                (Thrown e, [Called check; q; Called downloadAndInstall] ++ logs)
            | Fulfilled _ =>
                (match relaunch_reply env with
                 | Fulfilled y => Normal y
                 | Rejected e => Thrown e
                 end,
                 ([Called check; q; Called downloadAndInstall] ++ logs)
                 ++ [Called relaunch])
            end
        end
    end.
Proof.
  unfold checkForUpdates, perform, bind, modify, await, ret, throw.
  destruct (check_reply env) as [[u|]|e]; try reflexivity.
  destruct (ask_reply env) as [[|]|e]; try reflexivity.
  cbn [negb app].
  destruct (download_reply env) as [x|e]; try reflexivity.
  destruct (relaunch_reply env) as [y|e]; reflexivity.
Qed.

Ltac membership :=
  rewrite ?in_app_iff; cbn [In];
  intuition (try discriminate; try congruence).

(** X9.  The application is restarted only after an update was found, the user
    agreed and the download and installation succeeded; nothing is
    downloaded without the user's agreement; the question put to the user
    names the version found; and when no update exists nothing happens
    beyond the check. *)
Theorem relaunch_needs_consent_and_a_finished_install :
  forall env : Environment,
    let r := checkForUpdates env [] in
    (In (Called relaunch) (snd r)
     <-> (exists u, check_reply env = Fulfilled (Some u))
         /\ ask_reply env = Fulfilled true
         /\ exists x, download_reply env = Fulfilled x)
    /\ (In (Called downloadAndInstall) (snd r)
        <-> (exists u, check_reply env = Fulfilled (Some u))
            /\ ask_reply env = Fulfilled true)
    /\ (forall message : string,
          In (Called (ask message)) (snd r) ->
          exists u, check_reply env = Fulfilled (Some u)
                    /\ includes message (version u) = true)
    /\ (check_reply env = Fulfilled None ->
        r = (Normal tt, [Called check])).
Proof.
  intros env r. subst r. rewrite checkForUpdates_cases.
  pose proof (not_called_in_logs relaunch
                (snd (after_download (download_events env)))) as NR.
  pose proof (not_called_in_logs downloadAndInstall
                (snd (after_download (download_events env)))) as ND.
  destruct (check_reply env) as [[u|]|e].
  - assert (A : forall message : string,
               Called (ask ("A new version is available: " ++ version u
                            ++ ". Do you want to update?")%string)
               = Called (ask message) ->
               exists u0, Fulfilled (Some u) = Fulfilled (Some u0)
                          /\ includes message (version u0) = true).
    { intros message E. injection E as <-. exists u. split; [reflexivity|].
      exact (includes_infix "A new version is available: " (version u)
               ". Do you want to update?"). }
    pose proof (fun m => not_called_in_logs (ask m)
                (snd (after_download (download_events env)))) as NA.
    cbn zeta.
    destruct (ask_reply env) as [[|]|e].
    + destruct (download_reply env) as [x|e]; cbn [snd].
      * split; [|split; [|split]].
        -- split; [intros _; repeat split; eauto | membership].
        -- split; [intros _; repeat split; eauto | membership].
        -- intros message. rewrite !in_app_iff. cbn [In].
           intros [[[H|[H|[H|[]]]]|H]|[H|[]]]; try discriminate H.
           ++ now apply A.
           ++ now apply NA in H.
        -- intros H. discriminate H.
      * split; [|split; [|split]].
        -- split; [|intros (_ & _ & [x H]); discriminate H].
           rewrite !in_app_iff. cbn [In].
           intros [[H|[H|[H|[]]]]|H]; try discriminate H. now apply NR in H.
        -- split; [intros _; repeat split; eauto | membership].
        -- intros message. rewrite !in_app_iff. cbn [In].
           intros [[H|[H|[H|[]]]]|H]; try discriminate H.
           ++ now apply A.
           ++ now apply NA in H.
        -- intros H. discriminate H.
    + cbn [snd]. split; [|split; [|split]].
      * split; [intros [H|[H|[]]]; discriminate H
               | intros (_ & H & _); discriminate H].
      * split; [intros [H|[H|[]]]; discriminate H
               | intros (_ & H); discriminate H].
      * intros message [H|[H|[]]]; [discriminate H|]. now apply A.
      * intros H. discriminate H.
    + cbn [snd]. split; [|split; [|split]].
      * split; [intros [H|[H|[]]]; discriminate H
               | intros (_ & H & _); discriminate H].
      * split; [intros [H|[H|[]]]; discriminate H
               | intros (_ & H); discriminate H].
      * intros message [H|[H|[]]]; [discriminate H|]. now apply A.
      * intros H. discriminate H.
  - cbn [snd]. split; [|split; [|split]].
    + split; [intros [H|[]]; discriminate H
             | intros ([u H] & _); discriminate H].
    + split; [intros [H|[]]; discriminate H
             | intros ([u H] & _); discriminate H].
    + intros message [H|[]]. discriminate H.
    + reflexivity.
  - cbn [snd]. split; [|split; [|split]].
    + split; [intros [H|[]]; discriminate H
             | intros ([u H] & _); discriminate H].
    + split; [intros [H|[]]; discriminate H
             | intros ([u H] & _); discriminate H].
    + intros message [H|[]]. discriminate H.
    + intros H. discriminate H.
Qed.

Lemma relaunch_needs_consent_and_a_finished_install_witness :
  In (Called relaunch)
    (snd (checkForUpdates
            {| check_reply := Fulfilled (Some {| version := "1.4.0" |});
               ask_reply := Fulfilled true;
               download_events := [Started None; Progress (Int 512); Finished];
               download_reply := Fulfilled tt;
               relaunch_reply := Fulfilled tt |} [])).
Proof.
  apply (proj2 (proj1 (relaunch_needs_consent_and_a_finished_install
           {| check_reply := Fulfilled (Some {| version := "1.4.0" |});
              ask_reply := Fulfilled true;
              download_events := [Started None; Progress (Int 512); Finished];
              download_reply := Fulfilled tt;
              relaunch_reply := Fulfilled tt |}))).
  split; [|split].
  - exists {| version := "1.4.0" |}. reflexivity.
  - reflexivity.
  - exists tt. reflexivity.
Defined.

(** X10.  [checkForUpdates] fails exactly when the step it has reached fails,
    and with that step's own error: the check, the question, the download
    (only after the user agreed) or the restart (only after the download
    succeeded).  No error is swallowed, and a declined or absent update is
    not an error. *)
Theorem update_errors_are_passed_on :
  forall (env : Environment) (e : value),
    fst (checkForUpdates env []) = Thrown e
    <-> check_reply env = Rejected e
        \/ ((exists u, check_reply env = Fulfilled (Some u))
            /\ (ask_reply env = Rejected e
                \/ (ask_reply env = Fulfilled true
                    /\ (download_reply env = Rejected e
                        \/ ((exists x, download_reply env = Fulfilled x)
                            /\ relaunch_reply env = Rejected e))))).
Proof.
  intros env e. rewrite checkForUpdates_cases.
  destruct (check_reply env) as [[u|]|e0]; cbn zeta.
  - destruct (ask_reply env) as [[|]|e1].
    + destruct (download_reply env) as [x|e2]; cbn [fst].
      * destruct (relaunch_reply env) as [[]|e3]; split.
        -- intros H. discriminate H.
        -- intros [H|(_ & [H|(_ & [H|(_ & H)])])]; discriminate H.
        -- intros H. injection H as <-. right. split; [eauto|].
           right. split; [reflexivity|]. right. split; [eauto|reflexivity].
        -- intros [H|(_ & [H|(_ & [H|(_ & H)])])]; try discriminate H.
           now injection H as <-.
      * split.
        -- intros H. injection H as <-. right. split; [eauto|].
           right. split; [reflexivity|]. now left.
        -- intros [H|(_ & [H|(_ & [H|([x H] & _)])])]; try discriminate H.
           now injection H as <-.
    + cbn [fst]. split.
      * intros H. discriminate H.
      * intros [H|(_ & [H|(H & _)])]; discriminate H.
    + cbn [fst]. split.
      * intros H. injection H as <-. right. split; [eauto|]. now left.
      * intros [H|(_ & [H|(H & _)])]; try discriminate H.
        now injection H as <-.
  - cbn [fst]. split.
    + intros H. discriminate H.
    + intros [H|([u H] & _)]; discriminate H.
  - cbn [fst]. split.
    + intros H. injection H as <-. now left.
    + intros [H|([u H] & _)]; [now injection H as <- | discriminate H].
Qed.

Lemma update_errors_are_passed_on_witness :
  fst (checkForUpdates
         {| check_reply := Fulfilled (Some {| version := "1.4.0" |});
            ask_reply := Fulfilled true;
            download_events := [Started None];
            download_reply := Rejected (VString "signature mismatch");
            relaunch_reply := Fulfilled tt |} [])
  = Thrown (VString "signature mismatch").
Proof.
  apply (proj2 (update_errors_are_passed_on
           {| check_reply := Fulfilled (Some {| version := "1.4.0" |});
              ask_reply := Fulfilled true;
              download_events := [Started None];
              download_reply := Rejected (VString "signature mismatch");
              relaunch_reply := Fulfilled tt |}
           (VString "signature mismatch"))).
  right. split.
  - exists {| version := "1.4.0" |}. reflexivity.
  - right. split; [reflexivity|]. left. reflexivity.
Defined.

(** *** The progress callback *)

Lemma plus_exact (x y : N) :
  (x + y < 2 ^ 53)%N -> plus (Int x) (Int y) = Int (x + y).
Proof.
  intros H. unfold plus, round53.
  assert (B : (2 ^ 53 < 2 ^ 1024)%N) by (apply N.pow_lt_mono_r; lia).
  apply N.ltb_lt in H as H1. rewrite H1.
  assert (H2 : (x + y <? 2 ^ 1024)%N = true)
    by (apply N.ltb_lt; eapply N.lt_trans; eassumption).
  now rewrite H2.
Qed.

Lemma counting_from (events : list DownloadEvent) (c : Counters)
    (lines : list line) (d t : N) :
  downloaded c = Int d ->
  exact_total events = Some t ->
  (d + t < 2 ^ 53)%N ->
  downloaded (fst (fold_left on_event events (c, lines))) = Int (d + t).
Proof.
  revert c lines d t.
  induction events as [|event events IH]; intros c lines d t D T B.
  - injection T as <-. cbn. now rewrite N.add_0_r.
  - destruct event as [len|[n|]|]; cbn [exact_total] in T;
      cbn [fold_left on_event].
    + apply IH; trivial.
    + destruct (exact_total events) as [t'|] eqn:T'; [|discriminate T].
      injection T as <-.
      rewrite (IH _ _ (d + n)%N t'); trivial.
      * f_equal. lia.
      * cbn [downloaded]. rewrite D. apply plus_exact. lia.
      * lia.
    + discriminate T.
    + apply IH; trivial.
Qed.

Lemma announcing_from (events : list DownloadEvent) (c : Counters)
    (lines : list line) :
  contentLength (fst (fold_left on_event events (c, lines)))
  = fold_left (fun acc event =>
                 match event with
                 | Started len => len
                 | _ => acc
                 end) events (contentLength c)
  /\ length (snd (fold_left on_event events (c, lines)))
     = length lines + length events.
Proof.
  revert c lines. induction events as [|event events IH]; intros c lines.
  - cbn. split; [reflexivity|lia].
  - destruct event as [len|n|]; cbn [fold_left on_event];
      match goal with
      | |- context [fold_left on_event events (?c', ?l')] =>
          destruct (IH c' l') as [E L]
      end;
      rewrite E, L; cbn [contentLength]; (split; [reflexivity|]);
      rewrite length_app; cbn [length]; lia.
Qed.

(** X11.  The callback logs one line per event and remembers the content
    length announced last, which may be absent; it never computes with
    it.  As long as the chunk lengths add up to less than [2^53], the
    [downloaded] counter is the exact number of bytes received, wherever
    [Started] and [Finished] events fall.  Beyond that the counter can
    stall: after [2^53] bytes one more byte leaves it unchanged. *)
Theorem downloaded_is_the_exact_byte_count :
  forall events : list DownloadEvent,
    contentLength (fst (after_download events)) = announced events
    /\ length (snd (after_download events)) = length events
    /\ (forall total : N,
          exact_total events = Some total ->
          (total < 2 ^ 53)%N ->
          downloaded (fst (after_download events)) = Int total)
    /\ downloaded
         (fst (after_download [Progress (Int (2 ^ 53)); Progress (Int 1)]))
       = Int (2 ^ 53).
Proof.
  intros events. unfold after_download.
  destruct (announcing_from events
              {| downloaded := Int 0; contentLength := Some (Int 0) |} [])
    as [E L].
  split; [exact E|]. split; [exact L|]. split.
  - intros total T B.
    apply (counting_from events
             {| downloaded := Int 0; contentLength := Some (Int 0) |}
             [] 0%N total); trivial.
  - vm_compute. reflexivity.
Qed.

Lemma downloaded_is_the_exact_byte_count_witness :
  downloaded
    (fst (after_download
            [Started None; Progress (Int 700); Progress (Int 300); Finished]))
  = Int 1000.
Proof.
  apply (proj1 (proj2 (proj2 (downloaded_is_the_exact_byte_count
           [Started None; Progress (Int 700); Progress (Int 300); Finished])))
           1000%N).
  - reflexivity.
  - reflexivity.
Defined.

End UpdateCheck.
